(** * The transaction table of the desktop client: amount codec,
      split-expansion reducer, visible-row filter, field sets and the
      draft buffer's delete guard.

    Shallow embedding of
    [packages/desktop-client/src/hooks/useActions.ts]
    (the part that holds the transactions table).  JavaScript numbers that
    hold amounts in minor units are integers ([Z]); the numbers produced by
    arithmetic on currency text are exact rationals ([Q]); strings are
    [string]; [null]/[undefined] is [None]; a [Set] of ids is a [gset]. *)

From Stdlib Require Import ZArith Zdiv QArith Qround String Ascii List Lia.
From stdpp Require Import base option list gmap sets strings.

#[local] Set Warnings "-clear-no-such-hyp".
Local Open Scope string_scope.

(** ** Data model *)

(** [error] of a transaction: the split-balance fault. *)
Record SplitTransactionError := {
  version : Z;
  difference : Z
}.

(** A transaction as the table receives it.  Only [id], [date], [amount],
    [parent_id], [is_child] and [_inverse] are inspected by the functions
    below; the other fields travel through the object spreads. *)
Record Transaction := {
  id : string;
  date : option string;
  amount : option Z;
  account : option string;
  payee : option string;
  notes : option string;
  category : option string;
  cleared : bool;
  parent_id : option string;
  is_parent : bool;
  is_child : bool;
  error : option SplitTransactionError;
  _inverse : bool
}.

(** The object returned by [serializeTransaction]:
    [{...transaction, date, debit, credit}].  [shown] is the spread of the
    transaction with [date] overwritten. *)
Record DisplayTransaction := {
  shown : Transaction;
  debit : string;
  credit : string
}.

Definition set_date (t : Transaction) (d : option string) : Transaction :=
  {| id := id t; date := d; amount := amount t; account := account t;
     payee := payee t; notes := notes t; category := category t;
     cleared := cleared t; parent_id := parent_id t; is_parent := is_parent t;
     is_child := is_child t; error := error t; _inverse := _inverse t |}.

Definition set_amount (t : Transaction) (a : option Z) : Transaction :=
  {| id := id t; date := date t; amount := a; account := account t;
     payee := payee t; notes := notes t; category := category t;
     cleared := cleared t; parent_id := parent_id t; is_parent := is_parent t;
     is_child := is_child t; error := error t; _inverse := _inverse t |}.

(** ** Id tiers *)

(** [id.indexOf(needle) !== -1] *)
Definition includes (needle s : string) : bool :=
  match String.index 0 needle s with
  | Some _ => true
  | None => false
  end.

Definition isTemporaryId (id : string) : bool := includes "temp" id.

Definition isPreviewSettingId (id : string) : bool := includes "previewSetting/" id.

Definition isPreviewId (id : string) : bool := includes "preview/" id.

(** ** The functions imported from loot-core and date-fns

    [serializeTransaction] and [deserializeTransaction] call functions of
    [loot-core/src/shared] and of [date-fns].  They are an interface here;
    [SpecModel] below gives one implementation. *)
Class LootCore := {
  (** [integerToCurrency(n)]: minor units to currency text. *)
  integerToCurrency : Z -> string;
  (** [evalArithmetic(text, null)]: the value of the text, or [null]. *)
  evalArithmetic : string -> option Q;
  (** [amountToInteger(n)]: a decimal amount to minor units. *)
  amountToInteger : Q -> Z;
  (** [getScheduledAmount(amount)] *)
  getScheduledAmount : option Z -> option Z;
  (** [isDateValid(parseISO(date))] *)
  isDateValid_parseISO : option string -> bool;
  (** [currentDay()] *)
  currentDay : string
}.

(** ** Amount codec *)

Section AmountCodec.
Context `{LootCore}.

(** [(transaction._inverse ? -1 : 1) * getScheduledAmount(amount)];
    a [null] factor counts as [0] in a product. *)
Definition previewAmount (inverse : bool) (scheduled : option Z) : option Z :=
  Some ((if inverse then -1 else 1) * default 0 scheduled)%Z.

Definition serializeTransaction (transaction : Transaction)
    (showZeroInDeposit : bool) : DisplayTransaction :=
  let amount0 := amount transaction in
  let date0 := date transaction in
  let amount1 :=
    if isPreviewId (id transaction)
    then previewAmount (_inverse transaction) (getScheduledAmount amount0)
    else amount0 in
  (* comparisons of null with 0 are all false *)
  let debit0 :=
    match amount1 with
    | Some a => if (a <? 0)%Z then Some (- a)%Z else None
    | None => None
    end in
  let credit0 :=
    match amount1 with
    | Some a => if (a >? 0)%Z then Some a else None
    | None => None
    end in
  let '(debit1, credit1) :=
    match amount1 with
    | Some 0%Z =>
        if showZeroInDeposit then (debit0, Some 0%Z) else (Some 0%Z, credit0)
    | _ => (debit0, credit0)
    end in
  let date1 := if isDateValid_parseISO date0 then date0 else None in
  {| shown := set_date transaction date1;
     debit := match debit1 with Some d => integerToCurrency d | None => "" end;
     credit := match credit1 with Some c => integerToCurrency c | None => "" end |}.

(** [originalTransaction.date || currentDay()]: [null] and the empty
    string are both falsy. *)
Definition date_or_today (d : option string) : string :=
  match d with
  | Some s => if String.eqb s "" then currentDay else s
  | None => currentDay
  end.

Definition deserializeTransaction (transaction : DisplayTransaction)
    (originalTransaction : Transaction) : Transaction :=
  let realTransaction := shown transaction in
  let date0 := date (shown transaction) in
  let amount0 : option Q :=
    if negb (String.eqb (debit transaction) "")
    then match evalArithmetic (debit transaction) with
         | Some parsed => Some (- parsed)%Q
         | None => None
         end
    else evalArithmetic (credit transaction) in
  let amount1 : option Z :=
    match amount0 with
    | Some a => Some (amountToInteger a)
    | None => amount originalTransaction
    end in
  let date1 :=
    match date0 with
    | None => Some (date_or_today (date originalTransaction))
    | Some d => Some d
    end in
  set_amount (set_date realTransaction date1) amount1.

(** The imported functions read the currency text of [n] back as [n], and
    its opposite as [-n]: [integerToCurrency n] is a text, not empty, whose
    value [amountToInteger] turns into [n] again. *)
Definition reads_back (n : Z) : Prop :=
  integerToCurrency n <> ""
  /\ exists q : Q,
       evalArithmetic (integerToCurrency n) = Some q
       /\ amountToInteger q = n
       /\ amountToInteger (- q) = (- n)%Z.

End AmountCodec.

(** ** Split-expansion state machine *)

(** What a call returns normally, or the [Error] it throws. *)
Inductive Result (A : Type) : Type :=
| Returns (a : A)
| Throws (message : string).
Arguments Returns {A} a.
Arguments Throws {A} message.

#[global] Instance Result_bind : MBind Result := fun A B k r =>
  match r with
  | Returns a => k a
  | Throws m => Throws m
  end.

Module SplitsExpanded.

Inductive Mode := expand | collapse.

Record State := {
  ids : gset string;
  mode : Mode;
  transitionId : option string
}.

(** The actions the table dispatches; [other] stands for an object whose
    [type] is none of the five the reducer knows. *)
Inductive Action :=
| toggle_split (id : string)
| open_split (id : string)
| set_mode (mode : Mode)
| switch_mode (id : option string)
| finish_switch_mode
| other (type : string).

(** [ids.has(id)] *)
Definition has (ids : gset string) (id : string) : bool := bool_decide (id ∈ ids).

(** [ids.delete(id)] and [ids.add(id)] on the fresh copy of the set *)
Definition set_delete (ids : gset string) (id : string) : gset string := ids ∖ {[ id ]}.
Definition set_add (ids : gset string) (id : string) : gset string := ids ∪ {[ id ]}.

Definition reducer (state : State) (action : Action) : Result State :=
  match action with
  | toggle_split id =>
      let ids0 := ids state in
      let ids1 := if has ids0 id then set_delete ids0 id else set_add ids0 id in
      Returns {| ids := ids1; mode := mode state; transitionId := transitionId state |}
  | open_split id =>
      let ids0 := ids state in
      let ids1 :=
        match mode state with
        | collapse => set_delete ids0 id
        | expand => set_add ids0 id
        end in
      Returns {| ids := ids1; mode := mode state; transitionId := transitionId state |}
  | set_mode m =>
      Returns {| ids := ∅; mode := m; transitionId := None |}
  | switch_mode id =>
      match transitionId state with
      | Some _ => Returns state (* You can only transition once at a time *)
      | None =>
          Returns {| ids := ∅;
                     mode := match mode state with expand => collapse | collapse => expand end;
                     transitionId := id |}
      end
  | finish_switch_mode =>
      Returns {| ids := ids state; mode := mode state; transitionId := None |}
  | other type => Throws ("Unknown action type: " +:+ type)
  end.

(** The initial state of [useReducer] when nothing is cached. *)
Definition initial (initialMode : Mode) : State :=
  {| ids := ∅; mode := initialMode; transitionId := None |}.

(** [useSplitsExpanded().expanded] *)
Definition expanded (state : State) (id : string) : bool :=
  match mode state with
  | collapse => negb (has (ids state) id)
  | expand => has (ids state) id
  end.

(** Dispatching a list of actions in order. *)
Fixpoint dispatch_all (state : State) (actions : list Action) : Result State :=
  match actions with
  | [] => Returns state
  | a :: rest => s ← reducer state a; dispatch_all s rest
  end.

End SplitsExpanded.

(** ** The visible rows of the table *)

Module TransactionTable.
Import SplitsExpanded.

(** [Array.prototype.findIndex]: the first position whose element passes,
    [-1] when there is none. *)
Fixpoint findIndex_from {A} (p : A -> bool) (l : list A) (idx : Z) : Z :=
  match l with
  | [] => (-1)%Z
  | x :: rest => if p x then idx else findIndex_from p rest (idx + 1)%Z
  end.

Definition findIndex {A} (p : A -> bool) (l : list A) : Z := findIndex_from p l 0%Z.

(** [Array.prototype.filter] with a callback that also reads the index. *)
Fixpoint filter_from {A} (p : A -> Z -> bool) (l : list A) (idx : Z) : list A :=
  match l with
  | [] => []
  | x :: rest =>
      if p x idx then x :: filter_from p rest (idx + 1)%Z
      else filter_from p rest (idx + 1)%Z
  end.

Definition filter_idx {A} (p : A -> Z -> bool) (l : list A) : list A := filter_from p l 0%Z.

(** The value of [t.parent_id] when it is truthy: [null] and the empty
    string are falsy. *)
Definition truthy (s : option string) : option string :=
  match s with
  | Some v => if String.eqb v "" then None else Some v
  | None => None
  end.

(** The callback of the filter during a transition. *)
Definition transitionFilter (splitsExpanded : State) (prevSplitsExpanded : option State)
    (index : Z) (t : Transaction) (idx : Z) : bool :=
  match truthy (parent_id t) with
  | Some parent =>
      if (idx >=? index)%Z then expanded splitsExpanded parent
      else match prevSplitsExpanded with
           | Some prev => expanded prev parent
           | None => true
           end
  | None => true
  end.

(** The callback of the filter outside of a transition. *)
Definition settledFilter (splitsExpanded : State) (t : Transaction) : bool :=
  match truthy (parent_id t) with
  | Some parent => expanded splitsExpanded parent
  | None => true
  end.

(** What one run of the [transactions] memo leaves behind: the rows to show,
    the new content of the [prevSplitsExpanded] ref, and whether the table
    was anchored (with row animation switched off). *)
Record Memo := {
  result : list Transaction;
  prevSplitsExpanded_current : option State;
  anchored : bool
}.

Definition transactions (props_transactions : list Transaction)
    (splitsExpanded : State) (prevSplitsExpanded : option State) : Memo :=
  match transitionId splitsExpanded with
  | Some transitionId0 =>
      let index :=
        findIndex (fun t => String.eqb (id t) transitionId0) props_transactions in
      {| result :=
           filter_idx (transitionFilter splitsExpanded prevSplitsExpanded index)
             props_transactions;
         prevSplitsExpanded_current := Some splitsExpanded;
         anchored := false |}
  | None =>
      {| result := List.filter (settledFilter splitsExpanded) props_transactions;
         prevSplitsExpanded_current := Some splitsExpanded;
         anchored :=
           match prevSplitsExpanded with
           | Some prev => bool_decide (transitionId prev <> None)
           | None => false
           end |}
  end.

(** ** Field sets *)

Definition allFields : list string :=
  ["select"; "date"; "account"; "payee"; "notes"; "category"; "debit";
   "credit"; "cleared"].

Definition childFields : list string :=
  ["select"; "payee"; "notes"; "category"; "debit"; "credit"].

Definition getFields (showAccount showCategory : bool) (item : Transaction)
    : list string :=
  let fields := allFields in
  let fields :=
    if is_child item then childFields
    else List.filter
           (fun f => (showAccount || negb (String.eqb f "account"))
                     && (showCategory || negb (String.eqb f "category")))
           fields in
  let fields := if isPreviewId (id item) then ["select"; "cleared"] else fields in
  (* You can't focus the select/delete button of temporary transactions *)
  let fields := if isTemporaryId (id item) then drop 1 fields else fields in
  fields.

(** ** Deleting a row of the draft buffer *)

Section DraftBuffer.
(** [deleteTransaction(transactions, id).data] of
    [loot-core/src/shared/transactions] *)
Variable deleteTransaction_data : list Transaction -> string -> list Transaction.

(** [onDelete(id)] on the [newTransactions] state ([null] before the first
    draft is made).  Reading [newTrans[0].id] of [null] or of an empty array
    throws. *)
Definition onDelete (newTransactions : option (list Transaction))
    (id0 : string) : Result (option (list Transaction)) :=
  let temporary := isTemporaryId id0 in
  if temporary then
    match newTransactions with
    | Some (first :: rest) =>
        let newTrans := first :: rest in
        if String.eqb id0 (id first)
        then (* You can never delete the parent new transaction *)
          Returns newTransactions
        else Returns (Some (deleteTransaction_data newTrans id0))
    | _ => Throws "TypeError: cannot read properties of newTrans[0]"
    end
  else Returns newTransactions.
End DraftBuffer.

End TransactionTable.

(** ** An implementation of the imported functions *)

Module SpecModel.

(** The character of a decimal digit [0 <= d <= 9]. *)
Definition digit (d : Z) : ascii := ascii_of_nat (48 + Z.to_nat d).

Fixpoint digits_fuel (fuel : nat) (n : Z) (acc : string) : string :=
  match fuel with
  | O => acc
  | S fuel' =>
      let acc' := String (digit (n mod 10)) acc in
      if (n <? 10)%Z then acc' else digits_fuel fuel' (n / 10) acc'
  end.

(** The decimal numeral of [n >= 0], without leading zeros. *)
Definition digits (n : Z) : string :=
  digits_fuel (S (Z.to_nat (Z.log2 n))) n "".

(** Modelled from the spec: [integerToCurrency] of
    [loot-core/src/shared/util] is not in the sources.  The spec has amounts
    in minor units "formatted as currency text", a zero shown as "0.00" and
    500 minor units shown as "5.00": the units, a point and two digits of
    hundredths, with a minus sign before a negative amount. *)
Definition integerToCurrency (n : Z) : string :=
  let a := Z.abs n in
  (if (n <? 0)%Z then "-" else "")
  +:+ digits (a / 100) +:+ "."
  +:+ String (digit (a mod 100 / 10)) (String (digit (a mod 10)) "").

Definition digit_value (c : ascii) : option Z :=
  let n := nat_of_ascii c in
  if (48 <=? n)%nat && (n <=? 57)%nat then Some (Z.of_nat n - 48)%Z else None.

(** Reads the digits at the head of [s]: their value on top of [acc], how
    many were read on top of [count], and the rest of the text. *)
Fixpoint lex_digits (s : string) (acc : Z) (count : nat) : Z * nat * string :=
  match s with
  | String c rest =>
      match digit_value c with
      | Some d => lex_digits rest (acc * 10 + d)%Z (S count)
      | None => (acc, count, s)
      end
  | EmptyString => (acc, count, s)
  end.

(** A literal: digits, then optionally a point and digits; at least one
    digit in all. *)
Definition lex_number (s : string) : option (Q * string) :=
  let '(units, n1, rest) := lex_digits s 0 0 in
  match rest with
  | String c rest' =>
      if Ascii.eqb c "." then
        let '(frac, n2, rest'') := lex_digits rest' 0 0 in
        if (n1 + n2 =? 0)%nat then None
        else
          let scale := (10 ^ Z.of_nat n2)%Z in
          Some (Qmake (units * scale + frac) (Z.to_pos scale), rest'')
      else if (n1 =? 0)%nat then None else Some (inject_Z units, rest)
  | EmptyString => if (n1 =? 0)%nat then None else Some (inject_Z units, rest)
  end.

Inductive Token :=
| TNum (q : Q)
| TOp (c : ascii).

Definition is_operator (c : ascii) : bool :=
  Ascii.eqb c "+" || Ascii.eqb c "-" || Ascii.eqb c "*" || Ascii.eqb c "/".

Fixpoint tokenize (fuel : nat) (s : string) : option (list Token) :=
  match fuel with
  | O => None
  | S fuel' =>
      match s with
      | EmptyString => Some []
      | String c rest =>
          match lex_number s with
          | Some (q, rest') => cons (TNum q) <$> tokenize fuel' rest'
          | None =>
              if Ascii.eqb c " " then tokenize fuel' rest
              else if is_operator c then cons (TOp c) <$> tokenize fuel' rest
              else None
          end
      end
  end.

(** Applies [term op x] inside a running sum: [sum] holds the terms that are
    closed, [term] the product being built. *)
Definition apply_operator (c : ascii) (sum term x : Q) : option (Q * Q) :=
  if Ascii.eqb c "+" then Some (sum + term, x)%Q
  else if Ascii.eqb c "-" then Some (sum + term, - x)%Q
  else if Ascii.eqb c "*" then Some (sum, term * x)%Q
  else if Ascii.eqb c "/" then
    if Qeq_bool x 0 then None else Some (sum, term / x)%Q
  else None.

(** The operators and operands that follow the first operand; an operand
    may carry one minus sign. *)
Fixpoint eval_rest (sum term : Q) (ts : list Token) : option Q :=
  match ts with
  | [] => Some (sum + term)%Q
  | TOp c :: TNum x :: rest =>
      match apply_operator c sum term x with
      | Some (sum', term') => eval_rest sum' term' rest
      | None => None
      end
  | TOp c :: TOp m :: TNum x :: rest =>
      if Ascii.eqb m "-" then
        match apply_operator c sum term (- x)%Q with
        | Some (sum', term') => eval_rest sum' term' rest
        | None => None
        end
      else None
  | _ => None
  end.

Definition eval_tokens (ts : list Token) : option Q :=
  match ts with
  | TNum x :: rest => eval_rest 0 x rest
  | TOp m :: TNum x :: rest =>
      if Ascii.eqb m "-" then eval_rest 0 (- x)%Q rest else None
  | _ => None
  end.

(** Modelled from the spec: [evalArithmetic] of
    [loot-core/src/shared/arithmetic] is not in the sources.  The spec has it
    evaluate the text "as an arithmetic expression (supports + - * / over
    literals, not just bare numbers)" and yield [null] on malformed text;
    an empty text has no value, and neither has a division by zero. *)
Definition evalArithmetic (expression : string) : option Q :=
  match tokenize (S (String.length expression)) expression with
  | Some ts => eval_tokens ts
  | None => None
  end.

(** [Math.round]: the nearest integer, halves upwards. *)
Definition Math_round (x : Q) : Z := Qfloor (x + (1 # 2))%Q.

(** Modelled from the spec: [amountToInteger] of [loot-core/src/shared/util]
    is not in the sources.  Amounts are integers of minor units and the text
    "5.00" stands for 500 of them: the value times one hundred, rounded. *)
Definition amountToInteger (n : Q) : Z := Math_round (n * 100).

(** Modelled from the spec: [getScheduledAmount] of
    [loot-core/src/shared/schedules] is not in the sources.  The spec's
    amounts are (nullable) integers; for those the scheduled amount is the
    amount. *)
Definition getScheduledAmount (amount : option Z) : option Z := amount.

Definition leap_year (y : Z) : bool :=
  ((y mod 4 =? 0) && negb (y mod 100 =? 0) || (y mod 400 =? 0))%Z.

Definition days_in_month (y m : Z) : Z :=
  if (m =? 2)%Z then (if leap_year y then 29 else 28)
  else if ((m =? 4) || (m =? 6) || (m =? 9) || (m =? 11))%Z then 30
  else 31.

(** Modelled from the spec: [parseISO] and [isValid] are functions of
    date-fns.  The spec speaks of a date that "fails calendar validity":
    here a date is the text YYYY-MM-DD of a day that exists. *)
Definition isDateValid_parseISO (date : option string) : bool :=
  match date with
  | None => false
  | Some s =>
      match lex_digits s 0 0 with
      | (y, 4%nat, String c1 s1) =>
          match lex_digits s1 0 0 with
          | (m, 2%nat, String c2 s2) =>
              match lex_digits s2 0 0 with
              | (d, 2%nat, EmptyString) =>
                  Ascii.eqb c1 "-" && Ascii.eqb c2 "-"
                  && (1 <=? m)%Z && (m <=? 12)%Z
                  && (1 <=? d)%Z && (d <=? days_in_month y m)%Z
              | _ => false
              end
          | _ => false
          end
      | _ => false
      end
  end.

(** The imported functions on a day [today]. *)
Definition lootCore (today : string) : LootCore :=
  Build_LootCore integerToCurrency evalArithmetic amountToInteger
    getScheduledAmount isDateValid_parseISO today.

End SpecModel.

(** ** Sample data *)

Module Samples.

(** A committed transaction used in the examples. *)
Definition groceries (a : option Z) : Transaction :=
  {| id := "0f3c2a9e"; date := Some "2023-05-17"; amount := a;
     account := Some "checking"; payee := Some "market"; notes := None;
     category := Some "food"; cleared := true; parent_id := None;
     is_parent := false; is_child := false; error := None;
     _inverse := false |}.

(** The preview of a scheduled transfer seen from the receiving account. *)
Definition upcoming_transfer (a : option Z) : Transaction :=
  {| id := "preview/7d1e44b0"; date := Some "2023-06-03"; amount := a;
     account := Some "savings"; payee := Some "checking"; notes := None;
     category := None; cleared := false; parent_id := None;
     is_parent := false; is_child := false; error := None;
     _inverse := true |}.

Definition today : LootCore := SpecModel.lootCore "2023-06-01".

Definition row (i : string) (parent : option string) (a : Z) : Transaction :=
  {| id := i; date := Some "2023-05-17"; amount := Some a;
     account := Some "checking"; payee := None; notes := None;
     category := None; cleared := false; parent_id := parent;
     is_parent := false; is_child := bool_decide (parent <> None);
     error := None; _inverse := false |}.

(** Two split families with a plain row between them. *)
Definition ledger : list Transaction :=
  [ row "p1" None (-700); row "c1" (Some "p1") (-500); row "c2" (Some "p1") (-200);
    row "t1" None 1500;
    row "p2" None (-90); row "c3" (Some "p2") (-90) ].

(** The draft buffer after a split of the entry row. *)
Definition draft : list Transaction :=
  [ row "temp" None (-700); row "temp-1" (Some "temp") (-700) ].

End Samples.

(** ** Small helpers of the table *)

Module TableHelpers.

(** [transactions[index]]: [undefined] outside of the array, also for a
    negative index. *)
Definition at_index {A} (l : list A) (index : Z) : option A :=
  if (index <? 0)%Z then None else l !! Z.to_nat index.

(** [isLastChild(transactions, index)], as the truth value of what it
    returns. *)
Definition isLastChild (transactions : list Transaction) (index : Z) : bool :=
  match at_index transactions index with
  | Some trans =>
      is_child trans
      && match at_index transactions (index + 1) with
         | None => true
         | Some next => negb (bool_decide (parent_id next = parent_id trans))
         end
  | None => false
  end.

Definition selectAscDesc (field ascDesc clicked defaultAscDesc : string) : string :=
  if String.eqb field clicked
  then (if String.eqb ascDesc "asc" then "desc" else "asc")
  else defaultAscDesc.

(** A payee and an account as the payee cell reads them. *)
Record Payee := {
  payee_name : string;
  payee_transfer_acct : option string
}.

Record Account := {
  account_name : string;
  offbudget : bool
}.

(** [payeeId.startsWith('new:')] *)
Definition is_new_payee (payeeId : string) : bool := String.prefix "new:" payeeId.

(** [payeeId.slice('new:'.length)] *)
Definition new_payee_name (payeeId : string) : string :=
  String.substring 4 (String.length payeeId - 4) payeeId.

(** [getPayeePretty(transaction, payee, transferAcct)]; the element built
    for a transfer is the text it shows, the account's name. *)
Definition getPayeePretty (transaction : Transaction) (payee0 : option Payee)
    (transferAcct : option Account) : string :=
  let typed :=
    match TransactionTable.truthy (payee transaction) with
    | Some payeeId => if is_new_payee payeeId then new_payee_name payeeId else ""
    | None => ""
    end in
  match transferAcct with
  | Some acct => account_name acct
  | None =>
      match payee0 with
      | Some p =>
          match TransactionTable.truthy (payee_transfer_acct p) with
          | None => payee_name p
          | Some _ => typed
          end
      | None => typed
      end
  end.

End TableHelpers.

(** ** Editing a row: [onUpdate] of the [Transaction] component *)

Module TransactionRow.
Import TableHelpers.

(** [onUpdate(name, value)] as the cells call it: the name is one of these
    eight, each with the kind of value its cell passes. *)
Inductive Update :=
| update_date (value : option string)
| update_account (value : option string)
| update_payee (value : option string)
| update_notes (value : option string)
| update_category (value : option string)
| update_cleared (value : bool)
| update_debit (value : string)
| update_credit (value : string).

Definition set_account (t : Transaction) (v : option string) : Transaction :=
  {| id := id t; date := date t; amount := amount t; account := v;
     payee := payee t; notes := notes t; category := category t;
     cleared := cleared t; parent_id := parent_id t; is_parent := is_parent t;
     is_child := is_child t; error := error t; _inverse := _inverse t |}.

Definition set_payee (t : Transaction) (v : option string) : Transaction :=
  {| id := id t; date := date t; amount := amount t; account := account t;
     payee := v; notes := notes t; category := category t;
     cleared := cleared t; parent_id := parent_id t; is_parent := is_parent t;
     is_child := is_child t; error := error t; _inverse := _inverse t |}.

Definition set_notes (t : Transaction) (v : option string) : Transaction :=
  {| id := id t; date := date t; amount := amount t; account := account t;
     payee := payee t; notes := v; category := category t;
     cleared := cleared t; parent_id := parent_id t; is_parent := is_parent t;
     is_child := is_child t; error := error t; _inverse := _inverse t |}.

Definition set_category (t : Transaction) (v : option string) : Transaction :=
  {| id := id t; date := date t; amount := amount t; account := account t;
     payee := payee t; notes := notes t; category := v;
     cleared := cleared t; parent_id := parent_id t; is_parent := is_parent t;
     is_child := is_child t; error := error t; _inverse := _inverse t |}.

Definition set_cleared (t : Transaction) (v : bool) : Transaction :=
  {| id := id t; date := date t; amount := amount t; account := account t;
     payee := payee t; notes := notes t; category := category t;
     cleared := v; parent_id := parent_id t; is_parent := is_parent t;
     is_child := is_child t; error := error t; _inverse := _inverse t |}.

Definition with_shown (d : DisplayTransaction) (t : Transaction) : DisplayTransaction :=
  {| shown := t; debit := debit d; credit := credit d |}.

Definition with_debit (d : DisplayTransaction) (v : string) : DisplayTransaction :=
  {| shown := shown d; debit := v; credit := credit d |}.

Definition with_credit (d : DisplayTransaction) (v : string) : DisplayTransaction :=
  {| shown := shown d; debit := debit d; credit := v |}.

(** [transaction[name] === value] *)
Definition unchanged (transaction : DisplayTransaction) (u : Update) : bool :=
  match u with
  | update_date v => bool_decide (date (shown transaction) = v)
  | update_account v => bool_decide (account (shown transaction) = v)
  | update_payee v => bool_decide (payee (shown transaction) = v)
  | update_notes v => bool_decide (notes (shown transaction) = v)
  | update_category v => bool_decide (category (shown transaction) = v)
  | update_cleared v => bool_decide (cleared (shown transaction) = v)
  | update_debit v => String.eqb (debit transaction) v
  | update_credit v => String.eqb (credit transaction) v
  end.

(** [{ ...transaction, [name]: value }] *)
Definition assign (transaction : DisplayTransaction) (u : Update) : DisplayTransaction :=
  match u with
  | update_date v => with_shown transaction (set_date (shown transaction) v)
  | update_account v => with_shown transaction (set_account (shown transaction) v)
  | update_payee v => with_shown transaction (set_payee (shown transaction) v)
  | update_notes v => with_shown transaction (set_notes (shown transaction) v)
  | update_category v => with_shown transaction (set_category (shown transaction) v)
  | update_cleared v => with_shown transaction (set_cleared (shown transaction) v)
  | update_debit v => with_debit transaction v
  | update_credit v => with_credit transaction v
  end.

(** What one call of [onUpdate] leaves: the row's display state
    ([setTransaction]) and the transaction handed to [onSave], if any. *)
Record Edited := {
  display : DisplayTransaction;
  saved : option Transaction
}.

Section OnUpdate.
Context `{LootCore}.
(** [getAccountsById(accounts)[id]] of [loot-core/src/client/reducers/queries] *)
Variable accountsById : string -> option Account.

Definition onUpdate (transaction : DisplayTransaction)
    (originalTransaction : Transaction) (showZeroInDeposit : bool)
    (u : Update) : Result Edited :=
  if unchanged transaction u
  then Returns {| display := transaction; saved := None |}
  else
    let newTransaction := assign transaction u in
    (* [name === 'note'] holds for none of the names *)
    newTransaction ←
      match u with
      | update_account value =>
          match TransactionTable.truthy value with
          | Some v =>
              match accountsById v with
              | Some acct =>
                  Returns (if offbudget acct
                           then with_shown newTransaction
                                  (set_category (shown newTransaction) None)
                           else newTransaction)
              | None => Throws "TypeError: cannot read properties of undefined (reading 'offbudget')"
              end
          | None => Returns newTransaction
          end
      | _ => Returns newTransaction
      end;
    (* entering an amount in one of the fields clears the other one *)
    let newTransaction :=
      match u with
      | update_credit _ => with_debit newTransaction ""
      | update_debit _ => with_credit newTransaction ""
      | _ => newTransaction
      end in
    let temporaryPayee :=
      match u with
      | update_payee value =>
          match TransactionTable.truthy value with
          | Some v => is_new_payee v
          | None => false
          end
      | _ => false
      end in
    if temporaryPayee
    then Returns {| display := newTransaction; saved := None |}
    else
      let deserialized := deserializeTransaction newTransaction originalTransaction in
      Returns {| display := serializeTransaction deserialized showZeroInDeposit;
                 saved := Some deserialized |}.

End OnUpdate.
End TransactionRow.

(** ** The provider of the split-expansion state and its cache *)

Module SplitsExpandedProvider.
Import SplitsExpanded.

(** The provider while mounted: the reducer's state and
    [state.app.lastSplitState.current] of the store. *)
Record Mounted := {
  state : State;
  lastSplitState : option State
}.

(** The effect that follows a change of the state: in a finished state,
    cache the state. *)
Definition cacheEffect (state : State) (cached : option State) : option State :=
  match transitionId state with
  | None => Some state
  | Some _ => cached
  end.

(** [cachedState.current || { ids: new Set(), mode: initialMode }], then the
    first run of the effect. *)
Definition mount (cached : option State) (initialMode : Mode) : Mounted :=
  let state0 := default (initial initialMode) cached in
  {| state := state0; lastSplitState := cacheEffect state0 cached |}.

Definition dispatch (m : Mounted) (action : Action) : Result Mounted :=
  state1 ← reducer (state m) action;
  Returns {| state := state1; lastSplitState := cacheEffect state1 (lastSplitState m) |}.

Fixpoint run (m : Mounted) (actions : list Action) : Result Mounted :=
  match actions with
  | [] => Returns m
  | a :: rest => m1 ← dispatch m a; run m1 rest
  end.

(** What the provider keeps true of its cache: a cached state has no
    transition in flight, and a state without one is the cached state. *)
Definition cache_in_step (m : Mounted) : Prop :=
  (forall c, lastSplitState m = Some c -> transitionId c = None)
  /\ (transitionId (state m) = None -> lastSplitState m = Some (state m)).

End SplitsExpandedProvider.

(** ** The controller of the table *)

Module TableController.
Import SplitsExpanded TransactionTable TableHelpers.

(** [new Map(transactions.map(trans => [trans.id, trans]))]: a later row
    replaces an earlier one of the same id. *)
Definition transactionMap (transactions : list Transaction) : gmap string Transaction :=
  foldl (fun m trans => <[id trans := trans]> m) ∅ transactions.

Section Drafts.
Context `{LootCore}.

Definition makeTemporaryTransactions (currentAccountId currentCategoryId
    lastDate : option string) : list Transaction :=
  [ {| id := "temp";
       date := Some (date_or_today lastDate);
       amount := None;
       account := truthy currentAccountId;
       payee := None; notes := None;
       category := truthy currentCategoryId;
       cleared := false;
       parent_id := None; is_parent := false; is_child := false;
       error := None; _inverse := false |} ].

(** What the effect behind [onAddTemporary] does when [shouldAdd] is set. *)
Record Added := {
  newTransactions_after : list Transaction;
  notification : option string;
  edit : string * string;
  onAdd_called : option (list Transaction)
}.

Definition addTemporary (currentAccountId currentCategoryId : option string)
    (newTransactions : list Transaction) : Result Added :=
  match newTransactions with
  | [] => Throws "TypeError: cannot read properties of undefined (reading 'account')"
  | first :: _ =>
      match account first with
      | None =>
          Returns {| newTransactions_after := newTransactions;
                     notification := Some "Account is a required field";
                     edit := ("temp", "account");
                     onAdd_called := None |}
      | Some _ =>
          let transactions := newTransactions in
          let lastDate := date first in
          Returns {| newTransactions_after :=
                       makeTemporaryTransactions currentAccountId
                         currentCategoryId lastDate;
                     notification := None;
                     edit := ("temp", "date");
                     onAdd_called := Some transactions |}
      end
  end.

End Drafts.

(** *** The continuation that waits for a save *)

(** [savePending], [afterSaveFunc] and, for the record, the continuations
    called so far (oldest first). *)
Record SaveQueue (K : Type) := {
  savePending : bool;
  afterSaveFunc : option K;
  called : list K
}.
Arguments savePending {K} _.
Arguments afterSaveFunc {K} _.
Arguments called {K} _.

Inductive SaveEvent (K : Type) :=
| save_started                 (* [onSave] sets [savePending] *)
| after_save (func : K)        (* [afterSave(func)] *)
| data_changed.                (* the effect on [newTransactions], [props.transactions] *)
Arguments save_started {K}.
Arguments after_save {K} func.
Arguments data_changed {K}.

Definition idle {K} : SaveQueue K :=
  {| savePending := false; afterSaveFunc := None; called := [] |}.

Definition afterSave {K} (q : SaveQueue K) (func : K) : SaveQueue K :=
  if savePending q
  then {| savePending := savePending q; afterSaveFunc := Some func; called := called q |}
  else {| savePending := savePending q; afterSaveFunc := afterSaveFunc q;
          called := (called q ++ [func])%list |}.

Definition dataChanged {K} (q : SaveQueue K) : SaveQueue K :=
  match savePending q, afterSaveFunc q with
  | true, Some func =>
      {| savePending := false; afterSaveFunc := None;
         called := (called q ++ [func])%list |}
  | _, _ =>
      {| savePending := false; afterSaveFunc := afterSaveFunc q; called := called q |}
  end.

Definition saveStep {K} (q : SaveQueue K) (e : SaveEvent K) : SaveQueue K :=
  match e with
  | save_started =>
      {| savePending := true; afterSaveFunc := afterSaveFunc q; called := called q |}
  | after_save func => afterSave q func
  | data_changed => dataChanged q
  end.

Definition saveRun {K} (q : SaveQueue K) (events : list (SaveEvent K)) : SaveQueue K :=
  foldl saveStep q events.

(** The functions handed to [afterSave], in the order of the calls. *)
Definition handed {K} (events : list (SaveEvent K)) : list K :=
  omap (fun e => match e with after_save func => Some func | _ => None end) events.

(** *** Enter in the table *)

Inductive EnterAction :=
| nothing
| addSplit (id : string)
| addTemporary_.

(** The continuation of [onCheckNewEnter]: [editingId] is the navigator's at
    the time of the key, the buffer is the latest one. *)
Definition newEnterContinuation (editingId : option string)
    (newTransactions : list Transaction) : Result EnterAction :=
  match last newTransactions, newTransactions with
  | Some lastTransaction, first :: _ =>
      let isSplit :=
        bool_decide (truthy (parent_id lastTransaction) <> None)
        || is_parent lastTransaction in
      let editingLast := bool_decide (editingId = Some (id lastTransaction)) in
      if bool_decide (error first <> None) && editingLast
      then Returns (addSplit (id lastTransaction))
      else if editingLast
                && (negb isSplit || bool_decide (error lastTransaction = None))
      then Returns addTemporary_
      else Returns nothing
  | _, _ => Throws "TypeError: cannot read properties of undefined"
  end.

(** The continuation of [onCheckEnter]: [transactions] is
    [props.transactions], [map] the map of the rows shown. *)
Definition enterContinuation (id0 : option string) (focusedField : string)
    (transactions : list Transaction) (map : gmap string Transaction)
    : EnterAction :=
  let idx := findIndex (fun t => bool_decide (Some (id t) = id0)) transactions in
  let parent :=
    match at_index transactions idx with
    | Some t => match parent_id t with Some p => map !! p | None => None end
    | None => None
    end in
  match parent, id0 with
  | Some p, Some x =>
      if isLastChild transactions idx
         && bool_decide (error p <> None)
         && negb (String.eqb focusedField "select")
      then addSplit x
      else nothing
  | _, _ => nothing
  end.

(** [onSplit(id)] of a transaction that is not temporary: the state the
    dispatch of [open-split] leaves and the cell to edit next.  [onSplit_]
    stands for [props.onSplit]. *)
Definition onSplit_committed (onSplit_ : string -> string)
    (transactions : list Transaction) (focusedField : string)
    (state : State) (id0 : string) : Result (State * (string * string)) :=
  match List.find (fun t => String.eqb (id t) id0) transactions with
  | None => Throws "TypeError: cannot read properties of undefined (reading 'id')"
  | Some trans =>
      let newId := onSplit_ id0 in
      state1 ← reducer state (open_split (id trans));
      Returns (state1,
               match amount trans with
               | None => (id trans, "debit")
               | Some _ => (newId, focusedField)
               end)
  end.

End TableController.

(** ** More sample data *)

Module MoreSamples.
Import TableHelpers SplitsExpanded.

(** The accounts of the examples: one on budget, one off budget. *)
Definition accounts (accountId : string) : option Account :=
  if String.eqb accountId "checking"
  then Some {| account_name := "Checking"; offbudget := false |}
  else if String.eqb accountId "house"
  then Some {| account_name := "House"; offbudget := true |}
  else None.

(** The row of [Samples.groceries] as the table shows it. *)
Definition groceries_shown : DisplayTransaction :=
  {| shown := Samples.groceries (Some (-1250)%Z); debit := "12.50"; credit := "" |}.

End MoreSamples.

(** * Properties *)

(** ** The implementation of the imported functions reads back what it
       writes *)

Module SpecModelFacts.
Import SpecModel.

Lemma digit_value_digit (d : Z) :
  (0 <= d < 10)%Z -> digit_value (digit d) = Some d.
Proof.
  intros Hd.
  assert (Hcases : d = 0%Z \/ d = 1%Z \/ d = 2%Z \/ d = 3%Z \/ d = 4%Z \/
                   d = 5%Z \/ d = 6%Z \/ d = 7%Z \/ d = 8%Z \/ d = 9%Z) by lia.
  repeat (destruct Hcases as [-> | Hcases]; [reflexivity |]).
  subst d. reflexivity.
Qed.

Lemma lex_digits_cons_digit (d : Z) (s : string) (acc : Z) (count : nat) :
  (0 <= d < 10)%Z ->
  lex_digits (String (digit d) s) acc count
  = lex_digits s (acc * 10 + d)%Z (S count).
Proof.
  intros Hd. cbn [lex_digits]. now rewrite digit_value_digit.
Qed.

(** Reading the numeral written by [digits_fuel] continues with the text
    after it, the value pushed onto the accumulator. *)
Lemma lex_digits_fuel (fuel : nat) :
  forall n : Z, (0 <= n < 2 ^ Z.of_nat fuel)%Z ->
  exists k : nat, forall (tail : string) (acc : Z) (count : nat),
    lex_digits (digits_fuel fuel n tail) acc count
    = lex_digits tail (acc * 10 ^ Z.of_nat k + n)%Z (count + k).
Proof.
  induction fuel as [| fuel IH]; intros n Hn.
  - exists 0%nat. intros tail acc count. cbn [digits_fuel].
    assert (n = 0%Z) as -> by (cbn in Hn; lia).
    f_equal; lia.
  - cbn [digits_fuel].
    destruct (Z.ltb_spec n 10) as [Hlt | Hge].
    + exists 1%nat. intros tail acc count.
      rewrite Z.mod_small by lia.
      rewrite lex_digits_cons_digit by lia.
      f_equal; lia.
    + assert (Hdiv : (0 <= n / 10 < 2 ^ Z.of_nat fuel)%Z).
      { split; [apply Z.div_pos; lia |].
        apply Z.div_lt_upper_bound; [lia |].
        rewrite Nat2Z.inj_succ, Z.pow_succ_r in Hn by lia. lia. }
      destruct (IH _ Hdiv) as [k Hk].
      exists (S k). intros tail acc count.
      rewrite Hk.
      rewrite lex_digits_cons_digit by (apply Z.mod_pos_bound; lia).
      f_equal; [| lia].
      rewrite Nat2Z.inj_succ, Z.pow_succ_r by lia.
      pose proof (Z.div_mod n 10). lia.
Qed.

Lemma append_assoc (s1 s2 s3 : string) :
  (s1 +:+ s2) +:+ s3 = s1 +:+ (s2 +:+ s3).
Proof.
  induction s1 as [| c s1 IH]; [reflexivity |].
  change (String c ((s1 +:+ s2) +:+ s3) = String c (s1 +:+ (s2 +:+ s3))).
  now rewrite IH.
Qed.

Lemma digits_fuel_tail (fuel : nat) :
  forall (n : Z) (tail : string),
    digits_fuel fuel n tail = digits_fuel fuel n "" +:+ tail.
Proof.
  induction fuel as [| fuel IH]; intros n tail; cbn [digits_fuel].
  - reflexivity.
  - destruct (n <? 10)%Z; [reflexivity |].
    rewrite IH. rewrite (IH _ (String _ "")).
    rewrite append_assoc. reflexivity.
Qed.

Lemma lex_digits_digits (n : Z) :
  (0 <= n)%Z ->
  exists k : nat, forall (tail : string) (acc : Z) (count : nat),
    lex_digits (digits n +:+ tail) acc count
    = lex_digits tail (acc * 10 ^ Z.of_nat k + n)%Z (count + k).
Proof.
  intros Hn. unfold digits.
  destruct (lex_digits_fuel (S (Z.to_nat (Z.log2 n))) n) as [k Hk].
  { split; [exact Hn |].
    destruct (Z.eq_dec n 0%Z) as [-> | Hne]; [reflexivity |].
    rewrite Nat2Z.inj_succ, Z2Nat.id by apply Z.log2_nonneg.
    apply Z.log2_spec. lia. }
  exists k. intros tail acc count.
  rewrite <- digits_fuel_tail. apply Hk.
Qed.

Lemma integerToCurrency_nonneg (n : Z) :
  (0 <= n)%Z ->
  integerToCurrency n
  = digits (n / 100)
    +:+ String "." (String (digit (n mod 100 / 10)) (String (digit (n mod 10)) "")).
Proof.
  intros Hn. unfold integerToCurrency.
  rewrite Z.abs_eq by exact Hn.
  destruct (Z.ltb_spec n 0); [lia | reflexivity].
Qed.

(** The text of [n] minor units is one literal, of value [n / 100]. *)
Lemma lex_number_currency (n : Z) :
  (0 <= n)%Z -> lex_number (integerToCurrency n) = Some (Qmake n 100, "").
Proof.
  intros Hn. unfold lex_number.
  rewrite integerToCurrency_nonneg by exact Hn.
  destruct (lex_digits_digits (n / 100)) as [k Hk];
    [apply Z.div_pos; lia |].
  rewrite Hk. cbn [lex_digits].
  change (digit_value ".") with (@None Z). cbn iota.
  change (Ascii.eqb "." ".") with true. cbn iota.
  assert (Hd1 : (0 <= n mod 100 / 10 < 10)%Z).
  { pose proof (Z.mod_pos_bound n 100).
    split; [apply Z.div_pos; lia | apply Z.div_lt_upper_bound; lia]. }
  assert (Hd2 : (0 <= n mod 10 < 10)%Z) by (apply Z.mod_pos_bound; lia).
  rewrite !lex_digits_cons_digit by assumption.
  cbn [lex_digits].
  destruct (Nat.eqb_spec (0 + k + 2) 0) as [Hk0 | _]; [lia |].
  f_equal. f_equal. f_equal.
  change (10 ^ Z.of_nat 2)%Z with 100%Z.
  pose proof (Z.div_mod n 100).
  pose proof (Z.div_mod (n mod 100) 10).
  assert (Hmm : ((n mod 100) mod 10 = n mod 10)%Z).
  { apply Z.mod_mod_divide. exists 10%Z. reflexivity. }
  lia.
Qed.

Lemma evalArithmetic_currency (n : Z) :
  (0 <= n)%Z ->
  evalArithmetic (integerToCurrency n) = Some (0 + Qmake n 100)%Q.
Proof.
  intros Hn. unfold evalArithmetic.
  pose proof (lex_number_currency n Hn) as Hlex.
  destruct (integerToCurrency n) as [| c rest] eqn:Htext.
  - discriminate Hlex.
  - cbn [String.length tokenize]. rewrite Hlex. reflexivity.
Qed.

Lemma integerToCurrency_not_empty (n : Z) :
  (0 <= n)%Z -> integerToCurrency n <> "".
Proof.
  intros Hn Hempty. pose proof (lex_number_currency n Hn) as Hlex.
  rewrite Hempty in Hlex. discriminate Hlex.
Qed.

Lemma Math_round_half (a : Z) : Math_round (Qmake (2 * a) 2) = a.
Proof.
  unfold Math_round, Qfloor, Qplus. cbn [Qnum Qden].
  change (Z.pos (2 * 2)) with 4%Z.
  change (Z.pos 2) with 2%Z.
  symmetry. apply Z.div_unique with (r := 2%Z); lia.
Qed.

Lemma amountToInteger_currency (q : Q) (n : Z) :
  (q == Qmake n 100)%Q -> amountToInteger q = n.
Proof.
  intros Hq. unfold amountToInteger.
  rewrite <- (Math_round_half n).
  unfold Math_round. apply Qfloor_comp.
  rewrite Hq. unfold Qeq, Qplus, Qmult. cbn [Qnum Qden]. lia.
Qed.

(** The currency text of a non-negative amount evaluates to a number that
    stands for that amount, and its opposite for the opposite amount. *)
Lemma currency_reads_back (n : Z) :
  (0 <= n)%Z ->
  integerToCurrency n <> ""
  /\ exists q : Q,
       evalArithmetic (integerToCurrency n) = Some q
       /\ amountToInteger q = n
       /\ amountToInteger (- q) = (- n)%Z.
Proof.
  intros Hn. split; [now apply integerToCurrency_not_empty |].
  exists (0 + Qmake n 100)%Q. split; [now apply evalArithmetic_currency |].
  split; apply amountToInteger_currency.
  - apply Qplus_0_l.
  - rewrite Qplus_0_l. reflexivity.
Qed.

End SpecModelFacts.

(** ** Amount codec *)

Module CodecFacts.
Import Samples.

Section Codec.
Context {L : LootCore}.

Lemma deserialize_amount_debit (shown0 : Transaction) (text : string) (credit0 : string)
    (orig : Transaction) (q : Q) :
  text <> "" -> evalArithmetic text = Some q ->
  amount (deserializeTransaction
            {| shown := shown0; debit := text; credit := credit0 |} orig)
  = Some (amountToInteger (- q)).
Proof.
  intros Htext Hq. unfold deserializeTransaction. cbn.
  destruct (String.eqb_spec text "") as [Heq | _]; [contradiction |].
  cbn. now rewrite Hq.
Qed.

Lemma deserialize_amount_credit (shown0 : Transaction) (text : string)
    (orig : Transaction) (q : Q) :
  evalArithmetic text = Some q ->
  amount (deserializeTransaction
            {| shown := shown0; debit := ""; credit := text |} orig)
  = Some (amountToInteger q).
Proof.
  intros Hq. unfold deserializeTransaction. cbn. now rewrite Hq.
Qed.

(** The amount [serializeTransaction] splits into debit and credit. *)
Lemma serialize_fields (tx : Transaction) (f : bool) (a : Z) :
  (if isPreviewId (id tx)
   then previewAmount (_inverse tx) (getScheduledAmount (amount tx))
   else amount tx) = Some a ->
  debit (serializeTransaction tx f)
  = (if (a <? 0)%Z then integerToCurrency (- a)
     else if (a =? 0)%Z && negb f then integerToCurrency 0 else "")
  /\ credit (serializeTransaction tx f)
     = (if (a >? 0)%Z then integerToCurrency a
        else if (a =? 0)%Z && f then integerToCurrency 0 else "").
Proof.
  intros Ha. unfold serializeTransaction. rewrite Ha.
  destruct a as [| p | p]; destruct f; cbn; split; reflexivity.
Qed.

(** What comes back after [serializeTransaction] is the amount that was
    split into debit and credit. *)
Lemma deserialize_serialize_shown (tx orig : Transaction) (f : bool) (a : Z) :
  (if isPreviewId (id tx)
   then previewAmount (_inverse tx) (getScheduledAmount (amount tx))
   else amount tx) = Some a ->
  reads_back (Z.abs a) ->
  amount (deserializeTransaction (serializeTransaction tx f) orig) = Some a.
Proof.
  intros Hshown (Hnonempty & q & Hq & Hpos & Hneg).
  destruct (serialize_fields tx f a Hshown) as [Hdebit Hcredit].
  destruct (serializeTransaction tx f) as [shown0 debit0 credit0].
  cbn in Hdebit, Hcredit. subst debit0 credit0.
  destruct (Z.ltb_spec a 0) as [Hlt | Hge].
  - (* a payment: the debit field holds [-a] *)
    rewrite Z.abs_neq in * by lia.
    rewrite (deserialize_amount_debit _ _ _ _ q Hnonempty Hq).
    rewrite Hneg. f_equal. lia.
  - rewrite Z.abs_eq in * by lia.
    destruct (Z.eqb_spec a 0) as [-> | Hne].
    + (* zero: in the field the flag chooses *)
      destruct f; cbn -[deserializeTransaction].
      * now rewrite (deserialize_amount_credit _ _ _ q Hq), Hpos.
      * rewrite (deserialize_amount_debit _ _ _ _ q Hnonempty Hq).
        now rewrite Hneg.
    + (* a deposit: the credit field holds [a] *)
      destruct (Z.gtb_spec a 0) as [_ | Hle]; [| lia].
      cbn -[deserializeTransaction].
      now rewrite (deserialize_amount_credit _ _ _ q Hq), Hpos.
Qed.

(** A preview row shown inverted comes back with the opposite amount,
    whatever the scheduled amount of [a] is taken to be. *)
Lemma preview_inverse_roundtrip (tx orig : Transaction) (f : bool) (a s : Z) :
  isPreviewId (id tx) = true -> _inverse tx = true ->
  amount tx = Some a -> getScheduledAmount (Some a) = Some s ->
  reads_back (Z.abs s) ->
  amount (deserializeTransaction (serializeTransaction tx f) orig)
  = Some (- s)%Z.
Proof.
  intros Hpreview Hinv Hamount Hsched Hreads.
  apply deserialize_serialize_shown.
  - rewrite Hpreview, Hinv, Hamount, Hsched. unfold previewAmount. cbn.
    now destruct s.
  - now rewrite Z.abs_opp.
Qed.

(** C1, as amended.  A transaction with the integer amount [a] that is not
    a preview row (or is one that is not shown inverted and whose scheduled
    amount is [a]) comes back from [deserializeTransaction] after
    [serializeTransaction] with the amount [a], under either flag, when the
    imported functions read the currency text of [|a|] back as [|a|]. *)
Theorem codec_roundtrip (tx orig : Transaction) (f : bool) (a : Z) :
  amount tx = Some a ->
  (isPreviewId (id tx) = true ->
   _inverse tx = false /\ getScheduledAmount (Some a) = Some a) ->
  reads_back (Z.abs a) ->
  amount (deserializeTransaction (serializeTransaction tx f) orig) = Some a.
Proof.
  intros Hamount Hpreview Hreads.
  apply deserialize_serialize_shown; [| exact Hreads].
  destruct (isPreviewId (id tx)); [| exact Hamount].
  destruct Hpreview as [Hinv Hsched]; [reflexivity |].
  rewrite Hamount, Hinv, Hsched. unfold previewAmount. cbn.
  now destruct a.
Qed.

(** C2.  A transaction whose amount is 0 shows the zero in the credit field
    under [showZeroInDeposit = true] and in the debit field under
    [showZeroInDeposit = false], as "0.00", and leaves the other field
    empty; the imported formatter writes 0 as "0.00" and the scheduled
    amount of 0 is 0. *)
Theorem zero_amount_display (tx : Transaction) :
  amount tx = Some 0%Z ->
  integerToCurrency 0 = "0.00" ->
  (isPreviewId (id tx) = true -> getScheduledAmount (Some 0%Z) = Some 0%Z) ->
  credit (serializeTransaction tx true) = "0.00"
  /\ debit (serializeTransaction tx true) = ""
  /\ debit (serializeTransaction tx false) = "0.00"
  /\ credit (serializeTransaction tx false) = "".
Proof.
  intros Hamount Hzero Hsched.
  assert (Hshown :
            (if isPreviewId (id tx)
             then previewAmount (_inverse tx) (getScheduledAmount (amount tx))
             else amount tx) = Some 0%Z).
  { destruct (isPreviewId (id tx)); [| exact Hamount].
    rewrite Hamount, Hsched by reflexivity.
    unfold previewAmount. now destruct (_inverse tx). }
  destruct (serialize_fields tx true 0 Hshown) as [Hd1 Hc1].
  destruct (serialize_fields tx false 0 Hshown) as [Hd0 Hc0].
  cbn in Hd1, Hc1, Hd0, Hc0.
  rewrite Hd1, Hc1, Hd0, Hc0, Hzero. repeat split.
Qed.

(** C8.  When both fields are empty, or the debit field is not empty and
    has no value, or the debit field is empty and the credit field has no
    value, [deserializeTransaction] returns (it is a total function) and
    the amount is the original transaction's; an empty text has no
    value. *)
Theorem deserialize_degrades (dtx : DisplayTransaction) (orig : Transaction) :
  evalArithmetic "" = None ->
  (debit dtx = "" /\ credit dtx = "")
  \/ (debit dtx <> "" /\ evalArithmetic (debit dtx) = None)
  \/ (debit dtx = "" /\ credit dtx <> "" /\ evalArithmetic (credit dtx) = None) ->
  amount (deserializeTransaction dtx orig) = amount orig.
Proof.
  intros Hempty Hcases. unfold deserializeTransaction. cbn.
  destruct Hcases as [[Hd Hc] | [[Hd Hnone] | (Hd & _ & Hnone)]].
  - rewrite Hd, Hc. cbn. now rewrite Hempty.
  - destruct (String.eqb_spec (debit dtx) "") as [Heq | _]; [contradiction |].
    cbn. now rewrite Hnone.
  - rewrite Hd. cbn. now rewrite Hnone.
Qed.

(** [serializeTransaction] keeps a valid date and nulls any other. *)
Lemma serialize_date (tx : Transaction) (f : bool) :
  date (shown (serializeTransaction tx f))
  = if isDateValid_parseISO (date tx) then date tx else None.
Proof.
  unfold serializeTransaction.
  destruct (match
      (if isPreviewId (id tx)
       then previewAmount (_inverse tx) (getScheduledAmount (amount tx))
       else amount tx)
    with
    | Some 0%Z => _
    | _ => _
    end) as [debit1 credit1].
  reflexivity.
Qed.

(** The date that [deserializeTransaction] returns. *)
Lemma deserialize_date (dtx : DisplayTransaction) (orig : Transaction) :
  date (deserializeTransaction dtx orig)
  = Some (match date (shown dtx) with
          | Some d => d
          | None => date_or_today (date orig)
          end).
Proof.
  unfold deserializeTransaction. cbn. now destruct (date (shown dtx)).
Qed.

(** Whatever [serializeTransaction] did to the date, the transaction that
    comes back has one. *)
Lemma roundtrip_date_not_null (tx orig : Transaction) (f : bool) :
  date (deserializeTransaction (serializeTransaction tx f) orig) <> None.
Proof. now rewrite deserialize_date. Qed.

(** C10.  The date of the deserialized transaction is never null: a date
    that is there is kept; when it is null the result has the original
    transaction's date, and the current day when that one is null (or the
    empty text, which [||] passes over as well). *)
Theorem deserialize_date_not_null (dtx : DisplayTransaction) (orig : Transaction) :
  date (deserializeTransaction dtx orig) <> None
  /\ (forall d, date (shown dtx) = Some d ->
       date (deserializeTransaction dtx orig) = Some d)
  /\ (forall d, date (shown dtx) = None -> date orig = Some d -> d <> "" ->
       date (deserializeTransaction dtx orig) = Some d)
  /\ (date (shown dtx) = None -> date orig = None \/ date orig = Some "" ->
       date (deserializeTransaction dtx orig) = Some currentDay).
Proof.
  rewrite deserialize_date. repeat split.
  - discriminate.
  - now intros d ->.
  - intros d -> -> Hd. cbn.
    now destruct (String.eqb_spec d "") as [Heq | _].
  - now intros -> [-> | ->].
Qed.

End Codec.

(** *** On the implementation of the imported functions *)

(** Every non-negative amount is read back by [SpecModel]. *)
Lemma today_reads_back (n : Z) : (0 <= n)%Z -> @reads_back today n.
Proof. exact (SpecModelFacts.currency_reads_back n). Qed.

(** C1 fails on a preview row that is shown inverted: the scheduled
    transfer of 500 comes back as -500. *)
Lemma codec_roundtrip_preview_inverse :
  amount (upcoming_transfer (Some 500%Z)) = Some 500%Z
  /\ amount (@deserializeTransaction today
               (@serializeTransaction today (upcoming_transfer (Some 500%Z)) true)
               (upcoming_transfer (Some 500%Z)))
     = Some (-500)%Z
  /\ amount (@deserializeTransaction today
               (@serializeTransaction today (upcoming_transfer (Some 500%Z)) true)
               (upcoming_transfer (Some 500%Z)))
     <> Some 500%Z.
Proof.
  split; [reflexivity |]. split; [vm_compute; reflexivity |].
  vm_compute. discriminate.
Qed.

(** A day that does not exist is nulled on the way out and replaced by the
    original transaction's date on the way back. *)
Example invalid_date_roundtrip :
  let tx := set_date (groceries (Some 4200%Z)) (Some "2023-02-30") in
  date (shown (@serializeTransaction today tx true)) = None
  /\ date (@deserializeTransaction today (@serializeTransaction today tx true)
             (groceries (Some 4200%Z)))
     = Some "2023-05-17".
Proof. split; vm_compute; reflexivity. Qed.

(** The round trip on a payment of 12.50 under the flag [false]. *)
Lemma codec_roundtrip_witness :
  amount (groceries (Some (-1250)%Z)) = Some (-1250)%Z
  /\ amount (@deserializeTransaction today
               (@serializeTransaction today (groceries (Some (-1250)%Z)) false)
               (groceries (Some 99%Z)))
     = Some (-1250)%Z.
Proof.
  split; [reflexivity |].
  apply (@codec_roundtrip today).
  - reflexivity.
  - intros Hpreview. vm_compute in Hpreview. discriminate Hpreview.
  - split; [vm_compute; discriminate |].
    exists (1250 # 100)%Q. repeat split; vm_compute; reflexivity.
Defined.

(** The zero of a committed transaction under both flags. *)
Lemma zero_amount_display_witness :
  credit (@serializeTransaction today (groceries (Some 0%Z)) true) = "0.00"
  /\ debit (@serializeTransaction today (groceries (Some 0%Z)) true) = ""
  /\ debit (@serializeTransaction today (groceries (Some 0%Z)) false) = "0.00"
  /\ credit (@serializeTransaction today (groceries (Some 0%Z)) false) = "".
Proof.
  apply (@zero_amount_display today); reflexivity.
Defined.

(** An unfinished sum in the debit field leaves the amount alone. *)
Lemma deserialize_degrades_witness :
  amount (@deserializeTransaction today
            {| shown := groceries (Some 4200%Z); debit := "12+"; credit := "" |}
            (groceries (Some 4200%Z)))
  = Some 4200%Z.
Proof.
  apply (@deserialize_degrades today).
  - reflexivity.
  - right. left. split; [discriminate | vm_compute; reflexivity].
Defined.

End CodecFacts.

(** ** Split-expansion state machine *)

Module SplitsExpandedFacts.
Import SplitsExpanded.

Lemma has_true (X : gset string) (x : string) : has X x = true <-> x ∈ X.
Proof. unfold has. apply bool_decide_eq_true. Qed.

Lemma has_false (X : gset string) (x : string) : has X x = false <-> x ∉ X.
Proof. unfold has. apply bool_decide_eq_false. Qed.

Lemma has_set_delete (X : gset string) (x : string) : has (set_delete X x) x = false.
Proof. apply has_false. unfold set_delete. set_solver. Qed.

Lemma has_set_add (X : gset string) (x : string) : has (set_add X x) x = true.
Proof. apply has_true. unfold set_add. set_solver. Qed.

Lemma set_add_delete (X : gset string) (x : string) :
  x ∈ X -> set_add (set_delete X x) x = X.
Proof.
  intros Hx. unfold set_add, set_delete. apply set_eq. intros y.
  destruct (decide (y = x)) as [-> | Hne]; set_solver.
Qed.

Lemma set_delete_add (X : gset string) (x : string) :
  x ∉ X -> set_delete (set_add X x) x = X.
Proof. intros Hx. unfold set_add, set_delete. set_solver. Qed.

Lemma set_delete_idemp (X : gset string) (x : string) :
  set_delete (set_delete X x) x = set_delete X x.
Proof. unfold set_delete. set_solver. Qed.

Lemma set_add_idemp (X : gset string) (x : string) :
  set_add (set_add X x) x = set_add X x.
Proof. unfold set_add. set_solver. Qed.

(** One toggle flips the effective expansion of its id and leaves [mode]
    and [transitionId] alone. *)
Lemma toggle_flips (s : State) (x : string) :
  exists s1, reducer s (toggle_split x) = Returns s1
             /\ expanded s1 x = negb (expanded s x)
             /\ mode s1 = mode s /\ transitionId s1 = transitionId s.
Proof.
  eexists. split; [reflexivity |]. unfold expanded. cbn.
  destruct (has (ids s) x) eqn:Hhas;
    [rewrite has_set_delete | rewrite has_set_add];
    now destruct (mode s).
Qed.

(** A toggle of one id does not change the expansion of another. *)
Lemma toggle_other (s : State) (x y : string) :
  x <> y ->
  exists s1, reducer s (toggle_split x) = Returns s1
             /\ expanded s1 y = expanded s y.
Proof.
  intros Hne. eexists. split; [reflexivity |]. unfold expanded. cbn.
  assert (Hsame : has (if has (ids s) x then set_delete (ids s) x
                       else set_add (ids s) x) y = has (ids s) y).
  { unfold has, set_delete, set_add. apply bool_decide_ext.
    destruct (bool_decide (x ∈ ids s)); set_solver. }
  now rewrite Hsame.
Qed.

(** C4.  Two toggles of the same id in a row give back the state they
    started from: the same effective expansion of the id and the same
    membership in the override set. *)
Theorem toggle_twice (s : State) (x : string) :
  exists s1 s2,
    reducer s (toggle_split x) = Returns s1
    /\ reducer s1 (toggle_split x) = Returns s2
    /\ expanded s2 x = expanded s x
    /\ has (ids s2) x = has (ids s) x
    /\ s2 = s.
Proof.
  destruct (toggle_flips s x) as (s1 & Hs1 & _).
  exists s1, s. split; [exact Hs1 |].
  split; [| repeat split].
  cbn in Hs1. injection Hs1 as <-. cbn. f_equal.
  destruct s as [X m t]. cbn. f_equal.
  destruct (has X x) eqn:Hhas.
  - rewrite has_set_delete. apply set_add_delete. now apply has_true.
  - rewrite has_set_add. apply set_delete_add. now apply has_false.
Qed.

(** C5.  [open-split] is idempotent, and after it the id is effectively
    expanded, in either mode. *)
Theorem open_split_idempotent (s : State) (x : string) :
  exists s1,
    reducer s (open_split x) = Returns s1
    /\ reducer s1 (open_split x) = Returns s1
    /\ expanded s1 x = true.
Proof.
  eexists. split; [reflexivity |]. unfold expanded. cbn.
  destruct (mode s).
  - rewrite set_add_idemp, has_set_add. split; reflexivity.
  - rewrite set_delete_idemp, has_set_delete. split; reflexivity.
Qed.

(** While a transition is in flight every further [switch-mode] is
    dropped. *)
Lemma switch_mode_dropped (s : State) (anchors : list (option string)) :
  transitionId s <> None ->
  dispatch_all s (switch_mode <$> anchors) = Returns s.
Proof.
  intros Hbusy. induction anchors as [| a anchors IH]; [reflexivity |].
  cbn. destruct (transitionId s) eqn:Ht; [| contradiction].
  cbn. exact IH.
Qed.

(** C3.  With a transition in flight [switch-mode] returns the state as it
    is; so of two [switch-mode] calls made from a settled state, with no
    [finish-switch-mode] between them, only the first takes effect:
    [transitionId] is the first call's anchor and the state is the one the
    first call left. *)
Theorem switch_mode_exclusive (s : State) :
  (forall anchor, transitionId s <> None ->
     reducer s (switch_mode anchor) = Returns s)
  /\ (forall first second, transitionId s = None ->
        exists s1 s2,
          reducer s (switch_mode (Some first)) = Returns s1
          /\ reducer s1 (switch_mode second) = Returns s2
          /\ transitionId s2 = Some first
          /\ s2 = s1).
Proof.
  split.
  - intros anchor Hbusy. cbn. now destruct (transitionId s).
  - intros first second Hidle. do 2 eexists. cbn. rewrite Hidle.
    split; [reflexivity |]. cbn. repeat split.
Qed.

(** A [switch-mode] without an anchor ([id] null) flips the mode but leaves
    no transition in flight. *)
Lemma switch_mode_no_anchor (s : State) :
  transitionId s = None ->
  exists s1, reducer s (switch_mode None) = Returns s1
             /\ transitionId s1 = None /\ mode s1 <> mode s.
Proof.
  intros Hidle. eexists. cbn. rewrite Hidle. split; [reflexivity |]. cbn.
  split; [reflexivity |]. now destruct (mode s).
Qed.

(** After [finish-switch-mode] the next [switch-mode] is taken again. *)
Lemma switch_mode_after_finish (s : State) (anchor : option string) :
  dispatch_all s [finish_switch_mode; switch_mode anchor]
  = Returns {| ids := ∅;
               mode := match mode s with expand => collapse | collapse => expand end;
               transitionId := anchor |}.
Proof. reflexivity. Qed.

Example switch_twice :
  dispatch_all (initial expand) [switch_mode (Some "a"); switch_mode (Some "b")]
  = Returns {| ids := ∅; mode := collapse; transitionId := Some "a" |}.
Proof. reflexivity. Qed.

End SplitsExpandedFacts.

(** ** The visible rows, the field sets and the draft buffer *)

Module TransactionTableFacts.
Import SplitsExpanded TransactionTable Samples.

Lemma filter_from_elem {A} (p : A -> Z -> bool) (l : list A) :
  forall (k : Z) (x : A),
    x ∈ filter_from p l k
    <-> exists i : nat, l !! i = Some x /\ p x (k + Z.of_nat i)%Z = true.
Proof.
  induction l as [| y l IH]; intros k x; cbn [filter_from].
  - split; [intros Hin; inversion Hin | intros (i & Hi & _); discriminate Hi].
  - assert (Hrest :
      x ∈ filter_from p l (k + 1)
      <-> exists j : nat, l !! j = Some x /\ p x (k + Z.of_nat (S j))%Z = true).
    { rewrite IH. split; intros (j & Hj & Hp); exists j; split; trivial.
      - now replace (k + Z.of_nat (S j))%Z with (k + 1 + Z.of_nat j)%Z by lia.
      - now replace (k + 1 + Z.of_nat j)%Z with (k + Z.of_nat (S j))%Z by lia. }
    assert (Hhead : p y k = true /\ x = y
                    <-> y = x /\ p x (k + Z.of_nat 0)%Z = true).
    { replace (k + Z.of_nat 0)%Z with k by lia.
      split; [intros [Hp ->] | intros [-> Hp]]; now split. }
    destruct (p y k) eqn:Hpy.
    + rewrite elem_of_cons, Hrest. split.
      * intros [-> | (j & Hj & Hp)].
        -- exists 0%nat. split; [reflexivity |].
           now replace (k + Z.of_nat 0)%Z with k by lia.
        -- now exists (S j).
      * intros ([| j] & Hi & Hp).
        -- left. cbn in Hi. now injection Hi as ->.
        -- right. now exists j.
    + rewrite Hrest. split.
      * intros (j & Hj & Hp). now exists (S j).
      * intros ([| j] & Hi & Hp).
        -- cbn in Hi. injection Hi as ->.
           replace (k + Z.of_nat 0)%Z with k in Hp by lia. congruence.
        -- now exists j.
Qed.

Lemma filter_idx_elem {A} (p : A -> Z -> bool) (l : list A) (x : A) :
  x ∈ filter_idx p l
  <-> exists i : nat, l !! i = Some x /\ p x (Z.of_nat i) = true.
Proof.
  exact (filter_from_elem p l 0 x).
Qed.

Lemma filter_from_sublist {A} (p : A -> Z -> bool) (l : list A) :
  forall k : Z, sublist (filter_from p l k) l.
Proof.
  induction l as [| y l IH]; intros k; cbn [filter_from].
  - constructor.
  - destruct (p y k); [apply sublist_skip | apply sublist_cons]; apply IH.
Qed.

Lemma list_filter_sublist {A} (p : A -> bool) (l : list A) :
  sublist (List.filter p l) l.
Proof.
  induction l as [| y l IH]; cbn [List.filter].
  - constructor.
  - destruct (p y); [apply sublist_skip | apply sublist_cons]; exact IH.
Qed.

Lemma list_filter_elem {A} (p : A -> bool) (l : list A) (x : A) :
  x ∈ List.filter p l <-> x ∈ l /\ p x = true.
Proof. rewrite !list_elem_of_In. apply List.filter_In. Qed.

(** [findIndex] gives the first position that passes, and [-1] only when
    none does. *)
Lemma findIndex_from_spec {A} (p : A -> bool) (l : list A) :
  forall k : Z,
    (findIndex_from p l k = -1 /\ forall x, x ∈ l -> p x = false)%Z
    \/ exists (i : nat) (x : A),
         findIndex_from p l k = (k + Z.of_nat i)%Z
         /\ l !! i = Some x /\ p x = true
         /\ forall (j : nat) (y : A), (j < i)%nat -> l !! j = Some y -> p y = false.
Proof.
  induction l as [| y l IH]; intros k; cbn [findIndex_from].
  - left. split; [reflexivity |]. intros x Hin. inversion Hin.
  - destruct (p y) eqn:Hpy.
    + right. exists 0%nat, y. repeat split; [lia | exact Hpy |].
      intros j z Hj. lia.
    + destruct (IH (k + 1)%Z) as [[Hnone Hall] | (i & x & Hidx & Hi & Hp & Hfirst)].
      * left. split; [exact Hnone |].
        intros x [-> | Hin]%elem_of_cons; [exact Hpy | now apply Hall].
      * right. exists (S i), x. repeat split; [lia | exact Hi | exact Hp |].
        intros [| j] z Hj Hz.
        -- cbn in Hz. now injection Hz as <-.
        -- apply (Hfirst j); [lia | exact Hz].
Qed.

(** From the transitioning row on, the filter of a transition is the filter
    of the new state. *)
Lemma transitionFilter_from_index (se : State) (prev : option State)
    (index idx : Z) (t : Transaction) :
  (index <= idx)%Z ->
  transitionFilter se prev index t idx = settledFilter se t.
Proof.
  intros Hle. unfold transitionFilter, settledFilter.
  destruct (truthy (parent_id t)); [| reflexivity].
  destruct (Z.geb_spec idx index); [reflexivity | lia].
Qed.

(** Before the transitioning row it is the filter of the snapshot. *)
Lemma transitionFilter_before_index (se old : State) (index idx : Z)
    (t : Transaction) :
  (idx < index)%Z ->
  transitionFilter se (Some old) index t idx = settledFilter old t.
Proof.
  intros Hlt. unfold transitionFilter, settledFilter.
  destruct (truthy (parent_id t)); [| reflexivity].
  destruct (Z.geb_spec idx index); [lia | reflexivity].
Qed.

(** A child that follows its parent, when the parent is at or after the
    transitioning row, is filtered by the new state. *)
Lemma child_of_later_parent (se : State) (prev : option State) (index : Z)
    (i j : nat) (t : Transaction) :
  (index <= Z.of_nat j)%Z -> (j < i)%nat ->
  transitionFilter se prev index t (Z.of_nat i) = settledFilter se t.
Proof. intros Hj Hji. apply transitionFilter_from_index. lia. Qed.

Lemma transitionFilter_true (se : State) (prev : option State)
    (index idx : Z) (t : Transaction) :
  transitionFilter se prev index t idx = true
  <-> forall parent, truthy (parent_id t) = Some parent ->
        ((index <= idx)%Z -> expanded se parent = true)
        /\ ((idx < index)%Z ->
            forall old, prev = Some old -> expanded old parent = true).
Proof.
  unfold transitionFilter.
  destruct (truthy (parent_id t)) as [parent |]; [| now split].
  destruct (Z.geb_spec idx index) as [Hge | Hlt].
  - split.
    + intros Hexp ? [= <-]. split; [trivial | lia].
    + intros Hall. destruct (Hall parent eq_refl) as [Hnew _].
      apply Hnew. lia.
  - split.
    + intros Hexp ? [= <-]. split; [lia |].
      intros _ old ->. exact Hexp.
    + intros Hall. destruct prev as [old |]; [| reflexivity].
      destruct (Hall parent eq_refl) as [_ Hold].
      apply Hold; [lia | reflexivity].
Qed.

Lemma settledFilter_true (se : State) (t : Transaction) :
  settledFilter se t = true
  <-> forall parent, truthy (parent_id t) = Some parent ->
        expanded se parent = true.
Proof.
  unfold settledFilter.
  destruct (truthy (parent_id t)) as [parent |]; [| now split].
  split; [now intros Hexp ? [= <-] | intros Hall; now apply Hall].
Qed.

(** C6.  The rows the table shows are rows of [props.transactions], in
    their order.  Every row that is no child is shown.  During a
    transition, with [index] the position of the transitioning row, a child
    at a position at or after [index] is shown when the new state has its
    parent expanded, and a child before [index] when the snapshot taken
    before the switch has it expanded.  Outside of a transition every child
    is shown when the current state has its parent expanded. *)
Theorem visible_rows (txs : list Transaction) (se : State) (prev : option State) :
  let rows := result (transactions txs se prev) in
  sublist rows txs
  /\ (forall t, t ∈ txs -> truthy (parent_id t) = None -> t ∈ rows)
  /\ (forall tid, transitionId se = Some tid ->
        let index := findIndex (fun t => String.eqb (id t) tid) txs in
        forall t,
          t ∈ rows
          <-> exists i : nat,
                txs !! i = Some t
                /\ forall parent, truthy (parent_id t) = Some parent ->
                     ((index <= Z.of_nat i)%Z -> expanded se parent = true)
                     /\ ((Z.of_nat i < index)%Z ->
                         forall old, prev = Some old ->
                                     expanded old parent = true))
  /\ (transitionId se = None ->
        forall t,
          t ∈ rows
          <-> t ∈ txs
              /\ forall parent, truthy (parent_id t) = Some parent ->
                   expanded se parent = true).
Proof.
  cbn zeta. unfold transactions.
  destruct (transitionId se) as [tid |] eqn:Htid; cbn [result].
  - split; [apply filter_from_sublist |].
    split; [| split; [| discriminate]].
    + intros t [i Hi]%list_elem_of_lookup Hplain.
      apply filter_idx_elem. exists i. split; [exact Hi |].
      unfold transitionFilter. now rewrite Hplain.
    + intros ? [= <-]. cbn zeta. intros t.
      rewrite filter_idx_elem.
      split; intros (i & Hi & Hkeep); exists i; (split; [exact Hi |]).
      * exact (proj1 (transitionFilter_true _ _ _ _ _) Hkeep).
      * exact (proj2 (transitionFilter_true _ _ _ _ _) Hkeep).
  - split; [apply list_filter_sublist |].
    split; [| split; [discriminate |]].
    + intros t Hin Hplain. apply list_filter_elem. split; [exact Hin |].
      unfold settledFilter. now rewrite Hplain.
    + intros _ t. rewrite list_filter_elem, settledFilter_true. reflexivity.
Qed.

(** With distinct rows the position of a row is its own, and the clauses
    read row by row. *)
Lemma visible_rows_in_transition (txs : list Transaction) (se : State)
    (prev : option State) (tid : string) (i : nat) (t : Transaction) :
  NoDup txs -> transitionId se = Some tid -> txs !! i = Some t ->
  let index := findIndex (fun t => String.eqb (id t) tid) txs in
  t ∈ result (transactions txs se prev)
  <-> transitionFilter se prev index t (Z.of_nat i) = true.
Proof.
  intros Hnodup Htid Hi. cbn zeta. unfold transactions. rewrite Htid.
  cbn [result]. rewrite filter_idx_elem. split.
  - intros (j & Hj & Hkeep).
    now rewrite (NoDup_lookup _ _ _ _ Hnodup Hi Hj).
  - intros Hkeep. now exists i.
Qed.

(** [index] is the position of the first row that has the transitioning
    id. *)
Lemma transition_index (txs : list Transaction) (tid : string) (i : nat)
    (t : Transaction) :
  txs !! i = Some t -> id t = tid ->
  (forall (j : nat) (u : Transaction), (j < i)%nat -> txs !! j = Some u -> id u <> tid) ->
  findIndex (fun t => String.eqb (id t) tid) txs = Z.of_nat i.
Proof.
  intros Hi Hid Hfirst. unfold findIndex.
  destruct (findIndex_from_spec (fun t => String.eqb (id t) tid) txs 0)
    as [[_ Hnone] | (k & x & Hidx & Hk & Hx & Hbefore)].
  - assert (Hin : t ∈ txs) by (apply list_elem_of_lookup; now exists i).
    apply Hnone in Hin. apply String.eqb_neq in Hin. contradiction.
  - rewrite Hidx, Z.add_0_l. f_equal.
    apply String.eqb_eq in Hx.
    destruct (Nat.lt_trichotomy k i) as [Hlt | [Heq | Hgt]]; [| exact Heq |].
    + now destruct (Hfirst k x Hlt Hk).
    + specialize (Hbefore i t Hgt Hi). apply String.eqb_neq in Hbefore.
      contradiction.
Qed.

(** In a table of distinct rows, a child that follows a parent standing at
    or after the transitioning row is shown exactly when the new state has
    its parent expanded. *)
Lemma child_of_later_parent_shown (txs : list Transaction) (se : State)
    (prev : option State) (tid : string) (i j : nat) (t : Transaction) :
  NoDup txs -> transitionId se = Some tid -> txs !! i = Some t ->
  (findIndex (fun t => String.eqb (id t) tid) txs <= Z.of_nat j)%Z ->
  (j < i)%nat ->
  t ∈ result (transactions txs se prev) <-> settledFilter se t = true.
Proof.
  intros Hnodup Htid Hi Hj Hji.
  rewrite (visible_rows_in_transition txs se prev tid i t Hnodup Htid Hi).
  cbn zeta. now rewrite (child_of_later_parent se prev _ i j t Hj Hji).
Qed.

(** The memo leaves the current state behind as the snapshot for the next
    run. *)
Lemma transactions_snapshot (txs : list Transaction) (se : State)
    (prev : option State) :
  prevSplitsExpanded_current (transactions txs se prev) = Some se.
Proof. unfold transactions. now destruct (transitionId se). Qed.

(** The ledger in the middle of a switch and after it.  Under mode
    [collapse] with no overrides every family is open, under [expand] every
    family is closed; rows before the anchor still follow the snapshot. *)
Example ledger_in_transition :
  id <$> result (transactions ledger
                   {| ids := ∅; mode := expand; transitionId := Some "t1" |}
                   (Some {| ids := ∅; mode := collapse; transitionId := None |}))
  = ["p1"; "c1"; "c2"; "t1"; "p2"]
  /\ id <$> result (transactions ledger
                      {| ids := ∅; mode := collapse; transitionId := Some "p2" |}
                      (Some {| ids := ∅; mode := expand; transitionId := None |}))
     = ["p1"; "t1"; "p2"; "c3"]
  /\ id <$> result (transactions ledger
                      {| ids := ∅; mode := expand; transitionId := None |}
                      (Some {| ids := ∅; mode := expand; transitionId := Some "t1" |}))
     = ["p1"; "t1"; "p2"].
Proof. repeat split. Qed.

(** *** Field sets *)

(** The fields of a committed row that is no child and no preview. *)
Lemma getFields_normal (showAccount showCategory : bool) (item : Transaction) :
  is_child item = false -> isPreviewId (id item) = false ->
  isTemporaryId (id item) = false ->
  getFields showAccount showCategory item
  = (["select"; "date"] ++ (if showAccount then ["account"] else [])
     ++ ["payee"; "notes"] ++ (if showCategory then ["category"] else [])
     ++ ["debit"; "credit"; "cleared"])%list.
Proof.
  intros Hchild Hpreview Htemp. unfold getFields.
  rewrite Hchild, Hpreview, Htemp.
  now destruct showAccount, showCategory.
Qed.

(** Every list of fields of a row with a committed id starts with
    [select]. *)
Lemma getFields_select_first (showAccount showCategory : bool) (item : Transaction) :
  isTemporaryId (id item) = false ->
  exists rest, getFields showAccount showCategory item = "select" :: rest.
Proof.
  intros Htemp. unfold getFields. rewrite Htemp.
  destruct (isPreviewId (id item)); [now eexists |].
  destruct (is_child item); [now eexists |].
  destruct showAccount, showCategory; now eexists.
Qed.

(** C9.  The fields of a row by its kind.  A split child (committed, no
    preview) has select, payee, notes, category, debit, credit; a preview
    row has select and cleared; an ordinary top-level row has select, date,
    account (when the account column is shown), payee, notes, category
    (when the category column is shown), debit, credit, cleared; a
    temporary row has the fields of a committed row of its kind without the
    leading select, which is spelled out for each kind. *)
Theorem getFields_by_kind (showAccount showCategory : bool) (item : Transaction) :
  (is_child item = true -> isPreviewId (id item) = false ->
   isTemporaryId (id item) = false ->
   getFields showAccount showCategory item
   = ["select"; "payee"; "notes"; "category"; "debit"; "credit"])
  /\ (isPreviewId (id item) = true -> isTemporaryId (id item) = false ->
      getFields showAccount showCategory item = ["select"; "cleared"])
  /\ (is_child item = false -> isPreviewId (id item) = false ->
      isTemporaryId (id item) = false ->
      getFields showAccount showCategory item
      = (["select"; "date"] ++ (if showAccount then ["account"] else [])
         ++ ["payee"; "notes"] ++ (if showCategory then ["category"] else [])
         ++ ["debit"; "credit"; "cleared"])%list)
  /\ (isTemporaryId (id item) = true ->
      forall committed : Transaction,
        isTemporaryId (id committed) = false ->
        is_child committed = is_child item ->
        isPreviewId (id committed) = isPreviewId (id item) ->
        getFields showAccount showCategory committed
        = "select" :: getFields showAccount showCategory item)
  /\ (isTemporaryId (id item) = true -> isPreviewId (id item) = false ->
      is_child item = true ->
      getFields showAccount showCategory item
      = ["payee"; "notes"; "category"; "debit"; "credit"])
  /\ (isTemporaryId (id item) = true -> isPreviewId (id item) = false ->
      is_child item = false ->
      getFields showAccount showCategory item
      = (["date"] ++ (if showAccount then ["account"] else [])
         ++ ["payee"; "notes"] ++ (if showCategory then ["category"] else [])
         ++ ["debit"; "credit"; "cleared"])%list)
  /\ (isTemporaryId (id item) = true -> isPreviewId (id item) = true ->
      getFields showAccount showCategory item = ["cleared"]).
Proof.
  unfold getFields. repeat split.
  - now intros -> -> ->.
  - now intros -> ->.
  - intros -> -> ->. now destruct showAccount, showCategory.
  - intros -> committed -> -> ->.
    destruct (isPreviewId (id item)); [reflexivity |].
    destruct (is_child item); [reflexivity |].
    now destruct showAccount, showCategory.
  - now intros -> -> ->.
  - intros -> -> ->. now destruct showAccount, showCategory.
  - now intros -> ->.
Qed.

Example getFields_rows :
  getFields true true (row "c1" (Some "p1") (-500))
  = ["select"; "payee"; "notes"; "category"; "debit"; "credit"]
  /\ getFields true true (upcoming_transfer (Some 500%Z)) = ["select"; "cleared"]
  /\ getFields true false (row "temp" None (-700))
     = ["date"; "account"; "payee"; "notes"; "debit"; "credit"; "cleared"]
  /\ getFields true true (row "temp-1" (Some "temp") (-700))
     = ["payee"; "notes"; "category"; "debit"; "credit"].
Proof. repeat split. Qed.

(** *** The draft buffer *)

Section DraftBufferFacts.
Variable deleteTransaction_data : list Transaction -> string -> list Transaction.

(** C7.  Asking to delete the first row of the draft buffer leaves the
    buffer as it is. *)
Theorem onDelete_root (first : Transaction) (rest : list Transaction) :
  onDelete deleteTransaction_data (Some (first :: rest)) (id first)
  = Returns (Some (first :: rest)).
Proof.
  unfold onDelete. destruct (isTemporaryId (id first)); [| reflexivity].
  now rewrite String.eqb_refl.
Qed.

(** Another temporary row is handed to [deleteTransaction]. *)
Lemma onDelete_child (first : Transaction) (rest : list Transaction) (x : string) :
  isTemporaryId x = true -> x <> id first ->
  onDelete deleteTransaction_data (Some (first :: rest)) x
  = Returns (Some (deleteTransaction_data (first :: rest) x)).
Proof.
  intros Htemp Hne. unfold onDelete. rewrite Htemp.
  now destruct (String.eqb_spec x (id first)).
Qed.

(** An id that is not temporary changes nothing. *)
Lemma onDelete_committed (buffer : option (list Transaction)) (x : string) :
  isTemporaryId x = false ->
  onDelete deleteTransaction_data buffer x = Returns buffer.
Proof. intros Htemp. unfold onDelete. now rewrite Htemp. Qed.

End DraftBufferFacts.

Example onDelete_draft_root :
  onDelete (fun txs _ => take 1 txs) (Some draft) "temp" = Returns (Some draft)
  /\ onDelete (fun txs _ => take 1 txs) (Some draft) "temp-1"
     = Returns (Some (take 1 draft)).
Proof. repeat split. Qed.

End TransactionTableFacts.

(** * Further properties of the code *)

(** ** Amount codec *)

Module CodecMore.
Import Samples.

Section Codec.
Context {L : LootCore}.

(** X1.  [serializeTransaction] never fills both amount fields: whatever
    the transaction and the flag, the debit text or the credit text is
    empty. *)
Theorem serialize_never_both (tx : Transaction) (f : bool) :
  debit (serializeTransaction tx f) = "" \/ credit (serializeTransaction tx f) = "".
Proof.
  unfold serializeTransaction.
  destruct (if isPreviewId (id tx)
            then previewAmount (_inverse tx) (getScheduledAmount (amount tx))
            else amount tx) as [[| p | p] |]; destruct f; cbn; auto.
Qed.

(** [deserializeTransaction] changes the date and the amount only. *)
Lemma deserialize_fields (dtx : DisplayTransaction) (orig : Transaction) :
  deserializeTransaction dtx orig
  = set_amount
      (set_date (shown dtx) (date (deserializeTransaction dtx orig)))
      (amount (deserializeTransaction dtx orig)).
Proof. reflexivity. Qed.

Lemma serialize_shown (tx : Transaction) (f : bool) :
  shown (serializeTransaction tx f)
  = set_date tx (if isDateValid_parseISO (date tx) then date tx else None).
Proof.
  unfold serializeTransaction.
  destruct (match
      (if isPreviewId (id tx)
       then previewAmount (_inverse tx) (getScheduledAmount (amount tx))
       else amount tx)
    with
    | Some 0%Z => _
    | _ => _
    end) as [debit1 credit1].
  reflexivity.
Qed.

(** X2.  The whole transaction comes back: a transaction that is no preview
    row, with an integer amount [a] and a valid date, is returned as it was
    by [deserializeTransaction] after [serializeTransaction], field by
    field, whatever the original transaction passed along, when the
    imported functions read the currency text of [|a|] back as [|a|]. *)
Theorem serialize_deserialize_identity (tx orig : Transaction) (f : bool)
    (a : Z) (d : string) :
  isPreviewId (id tx) = false ->
  amount tx = Some a ->
  date tx = Some d -> isDateValid_parseISO (Some d) = true ->
  reads_back (Z.abs a) ->
  deserializeTransaction (serializeTransaction tx f) orig = tx.
Proof.
  intros Hpreview Hamount Hdate Hvalid Hreads.
  rewrite deserialize_fields.
  rewrite (CodecFacts.deserialize_serialize_shown tx orig f a);
    [| now rewrite Hpreview | exact Hreads].
  rewrite CodecFacts.deserialize_date, serialize_shown.
  rewrite Hdate, Hvalid. cbn.
  destruct tx. cbn in *. now subst.
Qed.

(** X3.  A transaction that is no preview row and has no amount yet shows
    two empty fields, and comes back with the amount of the original
    transaction passed along; an empty text has no value. *)
Theorem null_amount_roundtrip (tx orig : Transaction) (f : bool) :
  isPreviewId (id tx) = false ->
  amount tx = None ->
  evalArithmetic "" = None ->
  debit (serializeTransaction tx f) = ""
  /\ credit (serializeTransaction tx f) = ""
  /\ amount (deserializeTransaction (serializeTransaction tx f) orig)
     = amount orig.
Proof.
  intros Hpreview Hamount Hempty.
  assert (Hfields : debit (serializeTransaction tx f) = ""
                    /\ credit (serializeTransaction tx f) = "").
  { unfold serializeTransaction. rewrite Hpreview, Hamount. now split. }
  destruct Hfields as [Hdebit Hcredit]. repeat split; trivial.
  unfold deserializeTransaction. rewrite Hdebit, Hcredit. cbn.
  now rewrite Hempty.
Qed.

(** A preview row without an amount shows a zero: the [null] counts as 0
    in the product with the sign. *)
Lemma preview_null_amount_shows_zero (tx : Transaction) :
  isPreviewId (id tx) = true ->
  getScheduledAmount (amount tx) = None ->
  credit (serializeTransaction tx true) = integerToCurrency 0
  /\ debit (serializeTransaction tx false) = integerToCurrency 0.
Proof.
  intros Hpreview Hsched. unfold serializeTransaction.
  rewrite Hpreview, Hsched. unfold previewAmount.
  destruct (_inverse tx); cbn; now split.
Qed.

(** X4.  When the debit field is not empty [deserializeTransaction] does
    not look at the credit field: any two credit texts give the same
    transaction. *)
Theorem deserialize_debit_first (shown0 orig : Transaction)
    (debit0 credit1 credit2 : string) :
  debit0 <> "" ->
  deserializeTransaction
    {| shown := shown0; debit := debit0; credit := credit1 |} orig
  = deserializeTransaction
      {| shown := shown0; debit := debit0; credit := credit2 |} orig.
Proof.
  intros Hdebit. unfold deserializeTransaction. cbn.
  now destruct (String.eqb_spec debit0 "").
Qed.

End Codec.

(** A deposit of 42.00 comes back whole. *)
Lemma serialize_deserialize_identity_witness :
  @deserializeTransaction today
    (@serializeTransaction today (groceries (Some 4200%Z)) true)
    (groceries None)
  = groceries (Some 4200%Z).
Proof.
  apply (@serialize_deserialize_identity today _ _ _ 4200%Z "2023-05-17").
  - reflexivity.
  - reflexivity.
  - reflexivity.
  - vm_compute. reflexivity.
  - split; [vm_compute; discriminate |].
    exists (4200 # 100)%Q. repeat split; vm_compute; reflexivity.
Defined.

(** A row without amount, edited against an original of 99. *)
Lemma null_amount_roundtrip_witness :
  debit (@serializeTransaction today (groceries None) false) = ""
  /\ credit (@serializeTransaction today (groceries None) false) = ""
  /\ amount (@deserializeTransaction today
               (@serializeTransaction today (groceries None) false)
               (groceries (Some 99%Z)))
     = Some 99%Z.
Proof.
  apply (@null_amount_roundtrip today); reflexivity.
Defined.

(** A stale credit text next to a debit of 5.00. *)
Lemma deserialize_debit_first_witness :
  @deserializeTransaction today
    {| shown := groceries None; debit := "5.00"; credit := "7.25" |}
    (groceries None)
  = @deserializeTransaction today
      {| shown := groceries None; debit := "5.00"; credit := "" |}
      (groceries None).
Proof.
  apply (@deserialize_debit_first today). discriminate.
Defined.

End CodecMore.

(** ** Editing a row *)

Module TransactionRowFacts.
Import Samples TableHelpers TransactionRow.

Lemma substring_whole (s : string) : String.substring 0 (String.length s) s = s.
Proof. induction s as [| c s IH]; cbn; [reflexivity | now rewrite IH]. Qed.

Lemma substring_skip (n m : nat) (c : ascii) (s : string) :
  String.substring (S n) m (String c s) = String.substring n m s.
Proof. now destruct m. Qed.

Lemma new_payee_name_typed (name : string) :
  is_new_payee ("new:" +:+ name) = true
  /\ new_payee_name ("new:" +:+ name) = name.
Proof.
  split.
  - unfold is_new_payee. cbn. now destruct name.
  - unfold new_payee_name.
    change ("new:" +:+ name)
      with (String "n" (String "e" (String "w" (String ":" name)))).
    rewrite !substring_skip. cbn [String.length Nat.sub].
    rewrite Nat.sub_0_r. apply substring_whole.
Qed.

Section OnUpdate.
Context {L : LootCore}.
Variable accountsById : string -> option Account.

(** An update of the debit or of the credit field always saves. *)
Lemma onUpdate_debit (tx : DisplayTransaction) (orig : Transaction) (f : bool)
    (v : string) :
  debit tx <> v ->
  onUpdate accountsById tx orig f (update_debit v)
  = let t := deserializeTransaction
               {| shown := shown tx; debit := v; credit := "" |} orig in
    Returns {| display := serializeTransaction t f; saved := Some t |}.
Proof.
  intros Hne. unfold onUpdate. cbn.
  now destruct (String.eqb_spec (debit tx) v).
Qed.

Lemma onUpdate_credit (tx : DisplayTransaction) (orig : Transaction) (f : bool)
    (v : string) :
  credit tx <> v ->
  onUpdate accountsById tx orig f (update_credit v)
  = let t := deserializeTransaction
               {| shown := shown tx; debit := ""; credit := v |} orig in
    Returns {| display := serializeTransaction t f; saved := Some t |}.
Proof.
  intros Hne. unfold onUpdate. cbn.
  now destruct (String.eqb_spec (credit tx) v).
Qed.

(** The amount [serializeTransaction] shows of a row that is no preview. *)
Lemma serialize_plain (t : Transaction) (f : bool) (a : Z) :
  isPreviewId (id t) = false -> amount t = Some a ->
  debit (serializeTransaction t f)
  = (if (a <? 0)%Z then integerToCurrency (- a)
     else if (a =? 0)%Z && negb f then integerToCurrency 0 else "")
  /\ credit (serializeTransaction t f)
     = (if (a >? 0)%Z then integerToCurrency a
        else if (a =? 0)%Z && f then integerToCurrency 0 else "").
Proof.
  intros Hpreview Hamount. apply CodecFacts.serialize_fields.
  now rewrite Hpreview.
Qed.

(** X5.  Typing the currency text of [n > 0] into the debit field of a row
    that is no preview saves the amount [-n] and shows the text in the
    debit field and nothing in the credit field, whatever the two fields
    held before; typed into the credit field it saves [n] and shows the
    text in the credit field only.  The imported functions read the text of
    [n] back as [n]. *)
Theorem onUpdate_amount_typed (tx : DisplayTransaction) (orig : Transaction)
    (f : bool) (n : Z) :
  (0 < n)%Z -> reads_back n -> isPreviewId (id (shown tx)) = false ->
  (debit tx <> integerToCurrency n ->
   exists e t,
     onUpdate accountsById tx orig f (update_debit (integerToCurrency n)) = Returns e
     /\ saved e = Some t /\ amount t = Some (- n)%Z
     /\ debit (display e) = integerToCurrency n /\ credit (display e) = "")
  /\ (credit tx <> integerToCurrency n ->
      exists e t,
        onUpdate accountsById tx orig f (update_credit (integerToCurrency n)) = Returns e
        /\ saved e = Some t /\ amount t = Some n
        /\ debit (display e) = "" /\ credit (display e) = integerToCurrency n).
Proof.
  intros Hpos (Hnonempty & q & Hq & Hround & Hneg) Hpreview. split; intros Hne.
  - rewrite (onUpdate_debit _ _ _ _ Hne). cbn zeta.
    set (t := deserializeTransaction _ orig).
    assert (Hamount : amount t = Some (- n)%Z).
    { subst t. rewrite (CodecFacts.deserialize_amount_debit _ _ _ _ q Hnonempty Hq).
      now rewrite Hneg. }
    exists {| display := serializeTransaction t f; saved := Some t |}, t.
    repeat split; trivial; cbn [display];
      destruct (serialize_plain t f (- n) Hpreview Hamount) as [Hd Hc].
    + rewrite Hd. destruct (Z.ltb_spec (- n) 0); [| lia].
      now rewrite Z.opp_involutive.
    + rewrite Hc. destruct (Z.gtb_spec (- n) 0); [lia |].
      destruct (Z.eqb_spec (- n) 0); [lia | reflexivity].
  - rewrite (onUpdate_credit _ _ _ _ Hne). cbn zeta.
    set (t := deserializeTransaction _ orig).
    assert (Hamount : amount t = Some n).
    { subst t. rewrite (CodecFacts.deserialize_amount_credit _ _ _ q Hq).
      now rewrite Hround. }
    exists {| display := serializeTransaction t f; saved := Some t |}, t.
    repeat split; trivial; cbn [display];
      destruct (serialize_plain t f n Hpreview Hamount) as [Hd Hc].
    + rewrite Hd. destruct (Z.ltb_spec n 0); [lia |].
      destruct (Z.eqb_spec n 0); [lia | reflexivity].
    + rewrite Hc. destruct (Z.gtb_spec n 0); [reflexivity | lia].
Qed.

(** X6.  Emptying the debit field, or the credit field, saves the amount of
    the original transaction: both fields are empty then, and an empty text
    has no value. *)
Theorem onUpdate_amount_cleared (tx : DisplayTransaction) (orig : Transaction)
    (f : bool) :
  evalArithmetic "" = None ->
  (debit tx <> "" ->
   exists e t,
     onUpdate accountsById tx orig f (update_debit "") = Returns e
     /\ saved e = Some t /\ amount t = amount orig)
  /\ (credit tx <> "" ->
      exists e t,
        onUpdate accountsById tx orig f (update_credit "") = Returns e
        /\ saved e = Some t /\ amount t = amount orig).
Proof.
  intros Hempty. split; intros Hne.
  - rewrite (onUpdate_debit _ _ _ _ Hne). cbn zeta. do 2 eexists.
    split; [reflexivity |]. split; [reflexivity |].
    unfold deserializeTransaction. cbn. now rewrite Hempty.
  - rewrite (onUpdate_credit _ _ _ _ Hne). cbn zeta. do 2 eexists.
    split; [reflexivity |]. split; [reflexivity |].
    unfold deserializeTransaction. cbn. now rewrite Hempty.
Qed.

(** Whenever [onUpdate] saves, the row shows the serialization of what was
    saved. *)
Lemma onUpdate_saved_display (tx : DisplayTransaction) (orig : Transaction)
    (f : bool) (u : Update) (e : Edited) (t : Transaction) :
  onUpdate accountsById tx orig f u = Returns e -> saved e = Some t ->
  display e = serializeTransaction t f
  /\ exists dtx, t = deserializeTransaction dtx orig.
Proof.
  unfold onUpdate. destruct (unchanged tx u).
  { intros [= <-]. discriminate. }
  cbn. destruct u as [v | v | v | v | v | v | v | v]; cbn;
    try (intros [= <-] [= <-]; split; [reflexivity | eexists; reflexivity]).
  - (* account *)
    destruct (TransactionTable.truthy v) as [w |]; cbn.
    + destruct (accountsById w) as [acct |]; cbn; [| discriminate].
      intros [= <-] [= <-]. split; [reflexivity | eexists; reflexivity].
    + intros [= <-] [= <-]. split; [reflexivity | eexists; reflexivity].
  - (* payee *)
    destruct (match TransactionTable.truthy v with
              | Some w => is_new_payee w
              | None => false
              end).
    + intros [= <-]. discriminate.
    + intros [= <-] [= <-]. split; [reflexivity | eexists; reflexivity].
Qed.

(** X7.  Whatever field is edited, when [onUpdate] saves a transaction it
    has a date, and the row then shows at most one of debit and credit. *)
Theorem onUpdate_saved_normal (tx : DisplayTransaction) (orig : Transaction)
    (f : bool) (u : Update) (e : Edited) (t : Transaction) :
  onUpdate accountsById tx orig f u = Returns e -> saved e = Some t ->
  date t <> None
  /\ (debit (display e) = "" \/ credit (display e) = "").
Proof.
  intros Hrun Hsaved.
  destruct (onUpdate_saved_display tx orig f u e t Hrun Hsaved)
    as [Hdisplay [dtx ->]].
  split.
  - now rewrite CodecFacts.deserialize_date.
  - rewrite Hdisplay. unfold serializeTransaction.
    destruct (if isPreviewId _ then _ else _) as [[| p | p] |];
      destruct f; cbn; auto.
Qed.

(** X8.  A payee typed as new ([new:] and a name) is not saved; the row
    keeps the typed value and the payee cell shows the name, as long as no
    payee record and no transfer account stand for it. *)
Theorem onUpdate_new_payee (tx : DisplayTransaction) (orig : Transaction)
    (f : bool) (name : string) :
  payee (shown tx) <> Some ("new:" +:+ name) ->
  exists e,
    onUpdate accountsById tx orig f (update_payee (Some ("new:" +:+ name)))
    = Returns e
    /\ saved e = None
    /\ payee (shown (display e)) = Some ("new:" +:+ name)
    /\ getPayeePretty (shown (display e)) None None = name.
Proof.
  intros Hne. unfold onUpdate. cbn [unchanged].
  rewrite bool_decide_eq_false_2 by exact Hne.
  destruct (new_payee_name_typed name) as [Hnew Hname].
  assert (Htruthy : TransactionTable.truthy (Some ("new:" +:+ name))
                    = Some ("new:" +:+ name)) by reflexivity.
  exists {| display :=
              with_shown tx (set_payee (shown tx) (Some ("new:" +:+ name)));
            saved := None |}.
  cbn -[String.append TransactionTable.truthy]. rewrite Htruthy, Hnew, Hname.
  repeat split.
Qed.

(** X9.  Choosing an account: an account that is off budget takes the
    category away from the transaction that is saved, and an account id
    that [accounts] does not hold makes [onUpdate] throw. *)
Theorem onUpdate_account (tx : DisplayTransaction) (orig : Transaction)
    (f : bool) (v : string) :
  v <> "" -> account (shown tx) <> Some v ->
  (accountsById v = None ->
   exists message,
     onUpdate accountsById tx orig f (update_account (Some v)) = Throws message)
  /\ (forall acct, accountsById v = Some acct ->
        exists e t,
          onUpdate accountsById tx orig f (update_account (Some v)) = Returns e
          /\ saved e = Some t /\ account t = Some v
          /\ category t
             = if offbudget acct then None else category (shown tx)).
Proof.
  intros Hv Hne.
  assert (Htruthy : TransactionTable.truthy (Some v) = Some v).
  { unfold TransactionTable.truthy. now destruct (String.eqb_spec v ""). }
  split.
  - intros Hmissing. unfold onUpdate. cbn [unchanged].
    rewrite bool_decide_eq_false_2 by exact Hne.
    rewrite Htruthy, Hmissing. now eexists.
  - intros acct Hacct. unfold onUpdate. cbn [unchanged].
    rewrite bool_decide_eq_false_2 by exact Hne.
    rewrite Htruthy, Hacct. do 2 eexists.
    split; [reflexivity |]. split; [reflexivity |].
    now destruct (offbudget acct).
Qed.

End OnUpdate.

(** Typing 8.40 over the debit of 12.50. *)
Lemma onUpdate_amount_typed_witness :
  (exists e t,
     @onUpdate Samples.today MoreSamples.accounts MoreSamples.groceries_shown
       (Samples.groceries (Some (-1250)%Z)) false
       (update_debit (@integerToCurrency Samples.today 840)) = Returns e
     /\ saved e = Some t /\ amount t = Some (- 840)%Z
     /\ debit (display e) = @integerToCurrency Samples.today 840
     /\ credit (display e) = "").
Proof.
  refine (proj1 (@onUpdate_amount_typed Samples.today MoreSamples.accounts
                   MoreSamples.groceries_shown
                   (Samples.groceries (Some (-1250)%Z)) false 840 _ _ _) _).
  - lia.
  - split; [vm_compute; discriminate |].
    exists (840 # 100)%Q. repeat split; vm_compute; reflexivity.
  - reflexivity.
  - vm_compute. discriminate.
Defined.

(** Emptying the debit of 12.50 keeps the amount. *)
Lemma onUpdate_amount_cleared_witness :
  exists e t,
    @onUpdate Samples.today MoreSamples.accounts MoreSamples.groceries_shown
      (Samples.groceries (Some (-1250)%Z)) false (update_debit "") = Returns e
    /\ saved e = Some t /\ amount t = Some (-1250)%Z.
Proof.
  refine (proj1 (@onUpdate_amount_cleared Samples.today MoreSamples.accounts
                   MoreSamples.groceries_shown
                   (Samples.groceries (Some (-1250)%Z)) false _) _).
  - reflexivity.
  - discriminate.
Defined.

(** Ticking the cleared mark off. *)
Lemma onUpdate_saved_normal_witness :
  date (@deserializeTransaction Samples.today
          (assign MoreSamples.groceries_shown (update_cleared false))
          (Samples.groceries (Some (-1250)%Z))) <> None
  /\ (debit (@serializeTransaction Samples.today
               (@deserializeTransaction Samples.today
                  (assign MoreSamples.groceries_shown (update_cleared false))
                  (Samples.groceries (Some (-1250)%Z))) false) = ""
      \/ credit (@serializeTransaction Samples.today
                   (@deserializeTransaction Samples.today
                      (assign MoreSamples.groceries_shown (update_cleared false))
                      (Samples.groceries (Some (-1250)%Z))) false) = "").
Proof.
  exact (@onUpdate_saved_normal Samples.today MoreSamples.accounts
           MoreSamples.groceries_shown (Samples.groceries (Some (-1250)%Z))
           false (update_cleared false) _ _ eq_refl eq_refl).
Defined.

(** A payee typed as new over the payee [market]. *)
Lemma onUpdate_new_payee_witness :
  exists e,
    @onUpdate Samples.today MoreSamples.accounts MoreSamples.groceries_shown
      (Samples.groceries (Some (-1250)%Z)) false
      (update_payee (Some ("new:" +:+ "Bakery"))) = Returns e
    /\ saved e = None
    /\ payee (shown (display e)) = Some ("new:" +:+ "Bakery")
    /\ getPayeePretty (shown (display e)) None None = "Bakery".
Proof.
  apply (@onUpdate_new_payee Samples.today MoreSamples.accounts). discriminate.
Defined.

(** Moving the groceries to the off-budget account [house], and to an
    account that does not exist. *)
Lemma onUpdate_account_witness :
  (MoreSamples.accounts "house" = None ->
   exists message,
     @onUpdate Samples.today MoreSamples.accounts MoreSamples.groceries_shown
       (Samples.groceries (Some (-1250)%Z)) false
       (update_account (Some "house")) = Throws message)
  /\ (forall acct, MoreSamples.accounts "house" = Some acct ->
        exists e t,
          @onUpdate Samples.today MoreSamples.accounts MoreSamples.groceries_shown
            (Samples.groceries (Some (-1250)%Z)) false
            (update_account (Some "house")) = Returns e
          /\ saved e = Some t /\ account t = Some "house"
          /\ category t
             = if offbudget acct then None
               else category (shown MoreSamples.groceries_shown)).
Proof.
  apply (@onUpdate_account Samples.today MoreSamples.accounts); discriminate.
Defined.

End TransactionRowFacts.

(** ** The reducer and the provider's cache *)

Module SplitsExpandedMore.
Import SplitsExpanded SplitsExpandedProvider.

Lemma reducer_known (s : State) (a : Action) :
  (forall type, a <> other type) -> exists s1, reducer s a = Returns s1.
Proof.
  intros Hknown. destruct a as [x | x | m | anchor | | ty]; cbn;
    try (now eexists).
  - destruct (transitionId s); now eexists.
  - now destruct (Hknown ty).
Qed.

(** X10.  Dispatching a list of actions throws exactly when the list holds
    an action of a type the reducer does not know, and the message then
    names such a type. *)
Theorem dispatch_all_throws (s : State) (actions : list Action) :
  ((exists message, dispatch_all s actions = Throws message)
   <-> exists type, other type ∈ actions)
  /\ (forall message, dispatch_all s actions = Throws message ->
        exists type, other type ∈ actions
                     /\ message = "Unknown action type: " +:+ type).
Proof.
  revert s. induction actions as [| a actions IH]; intros s.
  - cbn. split; [split |].
    + intros [message Hthrow]. discriminate Hthrow.
    + intros [ty Hin]. inversion Hin.
    + intros message Hthrow. discriminate Hthrow.
  - destruct a as [x | x | m | anchor | | ty];
      try (match goal with
           | |- context [dispatch_all s (?a :: _)] =>
               destruct (reducer_known s a) as [s1 Hs1];
               [intros; discriminate |]
           end;
           cbn [dispatch_all]; rewrite Hs1;
           change (Returns s1 ≫= (fun s0 => dispatch_all s0 actions))
             with (dispatch_all s1 actions);
           destruct (IH s1) as [Hiff Hmsg]; split;
           [ rewrite Hiff; split; intros [ty Hin];
             [ exists ty; now right
             | exists ty; apply elem_of_cons in Hin as [Heq | Hin];
               [discriminate Heq | exact Hin] ]
           | intros message Hthrow;
             destruct (Hmsg message Hthrow) as (ty & Hin & ->);
             exists ty; split; [now right | reflexivity] ]).
    cbn. split; [split |].
    + intros _. exists ty. now left.
    + intros _. now eexists.
    + intros message [= <-]. exists ty. split; [now left | reflexivity].
Qed.

(** X11.  A [switch-mode] that is taken forgets every override and turns the
    default over: a family that followed the default changes its look and a
    family that was overridden keeps it. *)
Theorem switch_mode_taken (s : State) (anchor : option string) :
  transitionId s = None ->
  exists s1,
    reducer s (switch_mode anchor) = Returns s1
    /\ ids s1 = ∅ /\ transitionId s1 = anchor
    /\ forall x, expanded s1 x
                 = if has (ids s) x then expanded s x else negb (expanded s x).
Proof.
  intros Hidle. cbn. rewrite Hidle. eexists. split; [reflexivity |].
  cbn. repeat split. intros x. unfold expanded. cbn.
  assert (Hempty : has ∅ x = false) by (apply SplitsExpandedFacts.has_false; set_solver).
  rewrite Hempty. now destruct (mode s), (has (ids s) x).
Qed.

(** A switch from the state in which only [p1] is open. *)
Lemma switch_mode_taken_witness :
  exists s1,
    reducer {| ids := {[ "p1" ]}; mode := expand; transitionId := None |}
      (switch_mode (Some "t1")) = Returns s1
    /\ ids s1 = ∅ /\ transitionId s1 = Some "t1"
    /\ forall x,
         expanded s1 x
         = if has {[ "p1" ]} x
           then expanded {| ids := {[ "p1" ]}; mode := expand; transitionId := None |} x
           else negb (expanded {| ids := {[ "p1" ]}; mode := expand;
                                  transitionId := None |} x).
Proof.
  exact (switch_mode_taken
           {| ids := {[ "p1" ]}; mode := expand; transitionId := None |}
           (Some "t1") eq_refl).
Defined.

Lemma elem_toggle (X : gset string) (x z : string) :
  z ∈ (if has X x then set_delete X x else set_add X x)
  <-> (z ∈ X /\ z <> x) \/ (z = x /\ x ∉ X).
Proof.
  unfold has, set_delete, set_add.
  destruct (bool_decide_reflect (x ∈ X)); set_solver.
Qed.

(** X12.  Toggles commute: toggling two ids in either order gives the same
    state. *)
Theorem toggle_split_commute (s : State) (x y : string) :
  dispatch_all s [toggle_split x; toggle_split y]
  = dispatch_all s [toggle_split y; toggle_split x].
Proof.
  destruct (decide (x = y)) as [-> | Hne]; [reflexivity |].
  cbn. do 2 f_equal. apply set_eq. intros z.
  rewrite !elem_toggle.
  destruct (decide (z = x)) as [Hzx | Hzx];
    destruct (decide (z = y)) as [Hzy | Hzy];
    destruct (decide (x ∈ ids s)); destruct (decide (y ∈ ids s));
    naive_solver.
Qed.

Lemma mount_in_step (cached : option State) (initialMode : Mode) :
  (forall c, cached = Some c -> transitionId c = None) ->
  cache_in_step (mount cached initialMode).
Proof.
  intros Hsettled. unfold cache_in_step, mount, cacheEffect. cbn.
  destruct cached as [c |]; cbn.
  - rewrite (Hsettled c eq_refl). split; [| reflexivity].
    intros ? [= <-]. now apply Hsettled.
  - split; [| reflexivity]. now intros ? [= <-].
Qed.

Lemma dispatch_in_step (m m1 : Mounted) (a : Action) :
  cache_in_step m -> dispatch m a = Returns m1 -> cache_in_step m1.
Proof.
  intros [Hcache _]. unfold dispatch.
  destruct (reducer (state m) a) as [s1 | message]; [| discriminate].
  intros [= <-]. unfold cache_in_step, cacheEffect. cbn.
  destruct (transitionId s1) eqn:Ht.
  - split; [exact Hcache | discriminate].
  - split; [| reflexivity]. now intros ? [= <-].
Qed.

Lemma run_in_step (actions : list Action) :
  forall m m1, cache_in_step m -> run m actions = Returns m1 -> cache_in_step m1.
Proof.
  induction actions as [| a actions IH]; intros m m1 Hinv; cbn.
  - now intros [= <-].
  - destruct (dispatch m a) as [m' | message] eqn:Hstep; [| discriminate].
    intros Hrun. apply (IH m' m1); [| exact Hrun].
    exact (dispatch_in_step m m' a Hinv Hstep).
Qed.

(** X13.  The cache of the provider.  Mounted on a cache that is empty or
    holds a settled state, after any actions the cache still holds no state
    with a transition in flight; and whenever the state is settled the cache
    holds exactly that state, so that mounting the provider again starts
    from it. *)
Theorem cache_follows_settled (cached : option State) (initialMode : Mode)
    (actions : list Action) (m : Mounted) :
  (forall c, cached = Some c -> transitionId c = None) ->
  run (mount cached initialMode) actions = Returns m ->
  (forall c, lastSplitState m = Some c -> transitionId c = None)
  /\ (transitionId (state m) = None ->
      lastSplitState m = Some (state m)
      /\ forall mode', state (mount (lastSplitState m) mode') = state m).
Proof.
  intros Hsettled Hrun.
  destruct (run_in_step actions _ m (mount_in_step cached initialMode Hsettled) Hrun)
    as [Hcache Hstate].
  split; [exact Hcache |].
  intros Hidle. split; [now apply Hstate |].
  intros mode'. now rewrite (Hstate Hidle).
Qed.

(** A toggle, a switch with a toggle in its course, and the end of the
    switch. *)
Lemma cache_follows_settled_witness :
  let m := {| state := {| ids := {[ "p2" ]}; mode := collapse; transitionId := None |};
              lastSplitState :=
                Some {| ids := {[ "p2" ]}; mode := collapse; transitionId := None |} |} in
  (forall c, lastSplitState m = Some c -> transitionId c = None)
  /\ (transitionId (state m) = None ->
      lastSplitState m = Some (state m)
      /\ forall mode', state (mount (lastSplitState m) mode') = state m).
Proof.
  apply (cache_follows_settled None expand
           [toggle_split "p1"; switch_mode (Some "t1"); toggle_split "p2";
            finish_switch_mode]).
  - discriminate.
  - cbn. do 2 f_equal; f_equal; apply set_eq; intros z; set_solver.
Defined.

End SplitsExpandedMore.

(** ** More on the rows shown, the row map and the field sets *)

Module TransactionTableMore.
Import SplitsExpanded TransactionTable TableHelpers TableController.

Lemma filter_from_settled {A} (p : A -> Z -> bool) (q : A -> bool) (l : list A) :
  forall k : Z,
    (forall x i, (k <= i)%Z -> p x i = q x) ->
    filter_from p l k = List.filter q l.
Proof.
  induction l as [| y l IH]; intros k Hpq; cbn [filter_from List.filter].
  - reflexivity.
  - rewrite (Hpq y k) by lia. rewrite (IH (k + 1)%Z).
    + reflexivity.
    + intros x i Hi. apply Hpq. lia.
Qed.

(** X14.  A transition whose anchor is not among the rows, or is the first
    row, shows the rows as the new state does outside of a transition; the
    snapshot is not consulted. *)
Theorem transition_anchor_absent_or_first (txs : list Transaction) (se : State)
    (prev : option State) (tid : string) :
  transitionId se = Some tid ->
  (forall t, t ∈ txs -> id t <> tid)
  \/ (exists t rest, txs = t :: rest /\ id t = tid) ->
  result (transactions txs se prev) = List.filter (settledFilter se) txs.
Proof.
  intros Htid Hanchor. unfold transactions. rewrite Htid. cbn [result].
  unfold filter_idx. apply filter_from_settled. intros x i Hi.
  apply TransactionTableFacts.transitionFilter_from_index.
  destruct Hanchor as [Habsent | (t & rest & -> & Hid)].
  - unfold findIndex.
    destruct (TransactionTableFacts.findIndex_from_spec
                (fun t => String.eqb (id t) tid) txs 0)
      as [[-> _] | (j & y & _ & Hj & Hy & _)]; [lia |].
    apply String.eqb_eq in Hy.
    destruct (Habsent y); [| exact Hy].
    apply list_elem_of_lookup. now exists j.
  - unfold findIndex. cbn. rewrite Hid, String.eqb_refl. exact Hi.
Qed.

(** The row map holds, for an id, the last row of that id. *)
Lemma transactionMap_snoc (l : list Transaction) (t : Transaction) :
  transactionMap (l ++ [t])%list = <[id t := t]> (transactionMap l).
Proof. unfold transactionMap. now rewrite foldl_app. Qed.

Lemma transactionMap_lookup_Some (l : list Transaction) :
  forall k t, transactionMap l !! k = Some t -> t ∈ l /\ id t = k.
Proof.
  induction l as [| u l IH] using rev_ind; intros k t.
  - unfold transactionMap. cbn. now rewrite lookup_empty.
  - rewrite transactionMap_snoc.
    destruct (decide (id u = k)) as [<- | Hne].
    + rewrite lookup_insert_eq. intros [= <-].
      split; [| reflexivity]. apply elem_of_app. right. now left.
    + rewrite lookup_insert_ne by exact Hne. intros Hk.
      destruct (IH k t Hk) as [Hin Hid].
      split; [| exact Hid]. apply elem_of_app. now left.
Qed.

Lemma transactionMap_lookup_elem (l : list Transaction) :
  forall t, t ∈ l -> is_Some (transactionMap l !! id t).
Proof.
  induction l as [| u l IH] using rev_ind; intros t Hin.
  - inversion Hin.
  - rewrite transactionMap_snoc.
    destruct (decide (id u = id t)) as [Heq | Hne].
    + rewrite Heq, lookup_insert_eq. now eexists.
    + rewrite lookup_insert_ne by exact Hne. apply IH.
      apply elem_of_app in Hin as [Hin | Hin]; [exact Hin |].
      apply list_elem_of_singleton in Hin. now subst.
Qed.

Lemma transactionMap_lookup_unique (l : list Transaction) :
  NoDup (id <$> l) -> forall t, t ∈ l -> transactionMap l !! id t = Some t.
Proof.
  intros Hnodup t Hin.
  destruct (transactionMap_lookup_elem l t Hin) as [u Hu].
  destruct (transactionMap_lookup_Some l _ _ Hu) as [Huin Hid].
  rewrite Hu. f_equal.
  apply list_elem_of_lookup in Hin as [i Hi].
  apply list_elem_of_lookup in Huin as [j Hj].
  assert (Hij : i = j).
  { apply (NoDup_lookup (id <$> l) i j (id t)); [exact Hnodup | |].
    - now rewrite list_lookup_fmap, Hi.
    - now rewrite list_lookup_fmap, Hj, <- Hid. }
  subst j. congruence.
Qed.

(** X15.  The row map gives back what was put in: an id it holds leads to a
    row of the table with that id; every row's id is held; and when no two
    rows share an id, every row is found under its own id. *)
Theorem transactionMap_lookup (l : list Transaction) :
  (forall k t, transactionMap l !! k = Some t -> t ∈ l /\ id t = k)
  /\ (forall t, t ∈ l -> is_Some (transactionMap l !! id t))
  /\ (NoDup (id <$> l) -> forall t, t ∈ l -> transactionMap l !! id t = Some t).
Proof.
  split; [apply transactionMap_lookup_Some |].
  split; [apply transactionMap_lookup_elem |].
  apply transactionMap_lookup_unique.
Qed.

(** Rows that are no children are shown in every state. *)
Lemma plain_row_shown (txs : list Transaction) (se : State)
    (prev : option State) (t : Transaction) :
  t ∈ txs -> truthy (parent_id t) = None ->
  t ∈ result (transactions txs se prev).
Proof.
  intros Hin Hplain. unfold transactions.
  destruct (transitionId se); cbn [result].
  - apply list_elem_of_lookup in Hin as [i Hi].
    apply TransactionTableFacts.filter_idx_elem. exists i.
    split; [exact Hi |]. unfold transitionFilter. now rewrite Hplain.
  - apply TransactionTableFacts.list_filter_elem. split; [exact Hin |].
    unfold settledFilter. now rewrite Hplain.
Qed.

Lemma result_sublist (txs : list Transaction) (se : State) (prev : option State) :
  sublist (result (transactions txs se prev)) txs.
Proof.
  unfold transactions. destruct (transitionId se); cbn [result].
  - apply TransactionTableFacts.filter_from_sublist.
  - apply TransactionTableFacts.list_filter_sublist.
Qed.

(** X16.  In a table where no two rows share an id, a row that is no child
    (so every parent of a split) is found under its id in the map of the
    rows shown, in every expansion state, in a transition or not. *)
Theorem parent_always_in_map (txs : list Transaction) (se : State)
    (prev : option State) (parent : Transaction) :
  NoDup (id <$> txs) ->
  parent ∈ txs -> truthy (parent_id parent) = None ->
  transactionMap (result (transactions txs se prev)) !! id parent = Some parent.
Proof.
  intros Hnodup Hin Hplain.
  apply transactionMap_lookup_unique.
  - apply (sublist_NoDup (id <$> result (transactions txs se prev)) (id <$> txs));
      [exact Hnodup | apply fmap_sublist, result_sublist].
  - now apply plain_row_shown.
Qed.

(** A switch anchored at a row that has left the table. *)
Lemma transition_anchor_absent_or_first_witness :
  id <$> result (transactions Samples.ledger
                   {| ids := ∅; mode := expand; transitionId := Some "gone" |}
                   (Some {| ids := ∅; mode := collapse; transitionId := None |}))
  = ["p1"; "t1"; "p2"].
Proof.
  rewrite (transition_anchor_absent_or_first Samples.ledger _ _ "gone").
  - reflexivity.
  - reflexivity.
  - left. intros t Hin Hid.
    repeat (apply elem_of_cons in Hin as [-> | Hin]; [discriminate Hid |]).
    inversion Hin.
Defined.

(** The parent [p2] with all families closed. *)
Lemma parent_always_in_map_witness :
  transactionMap
    (result (transactions Samples.ledger
               {| ids := ∅; mode := expand; transitionId := None |} None))
    !! "p2"
  = Some (Samples.row "p2" None (-90)).
Proof.
  apply (parent_always_in_map Samples.ledger _ None (Samples.row "p2" None (-90))).
  - apply (bool_decide_unpack _). vm_compute. reflexivity.
  - apply list_elem_of_lookup. exists 4%nat. reflexivity.
  - reflexivity.
Defined.

(** *** The last child of a family *)

Lemma at_index_nat {A} (l : list A) (i : nat) : at_index l (Z.of_nat i) = l !! i.
Proof.
  unfold at_index. destruct (Z.ltb_spec (Z.of_nat i) 0); [lia |].
  now rewrite Nat2Z.id.
Qed.

(** X17.  Outside of the table, before its first row or after its last,
    [isLastChild] says no; so it does for a row that is no child. *)
Theorem isLastChild_outside (txs : list Transaction) (index : Z) :
  ((index < 0)%Z \/ (Z.of_nat (length txs) <= index)%Z ->
   isLastChild txs index = false)
  /\ (forall t, at_index txs index = Some t -> is_child t = false ->
        isLastChild txs index = false).
Proof.
  split.
  - intros Hout. unfold isLastChild.
    assert (Hnone : at_index txs index = None).
    { unfold at_index. destruct (Z.ltb_spec index 0); [reflexivity |].
      apply lookup_ge_None. lia. }
    now rewrite Hnone.
  - intros t Ht Hchild. unfold isLastChild. now rewrite Ht, Hchild.
Qed.

(** X18.  Where the children of one parent stand together and the row after
    them, if any, has another parent, [isLastChild] holds of the last of
    them and of no other. *)
Theorem isLastChild_of_family (before children after : list Transaction)
    (p : option string) (k : nat) :
  (forall c, c ∈ children -> is_child c = true /\ parent_id c = p) ->
  (forall n, head after = Some n -> parent_id n <> p) ->
  (k < length children)%nat ->
  isLastChild (before ++ children ++ after)%list
    (Z.of_nat (length before + k))
  = bool_decide (S k = length children).
Proof.
  intros Hfamily Hafter Hk. unfold isLastChild.
  destruct (lookup_lt_is_Some_2 children k Hk) as [c Hc].
  assert (Hin : c ∈ children) by (apply list_elem_of_lookup; now exists k).
  destruct (Hfamily c Hin) as [Hchild Hparent].
  rewrite at_index_nat.
  rewrite lookup_app_r by lia.
  replace (length before + k - length before)%nat with k by lia.
  rewrite (lookup_app_l_Some _ _ _ _ Hc). rewrite Hchild. cbn [andb].
  replace (Z.of_nat (length before + k) + 1)%Z
    with (Z.of_nat (length before + S k)) by lia.
  rewrite at_index_nat.
  rewrite lookup_app_r by lia.
  replace (length before + S k - length before)%nat with (S k) by lia.
  destruct (decide (S k = length children)) as [Hlast | Hmore].
  - rewrite bool_decide_eq_true_2 by exact Hlast.
    rewrite lookup_app_r by lia.
    replace (S k - length children)%nat with 0%nat by lia.
    destruct after as [| n after']; [reflexivity |]. cbn.
    rewrite bool_decide_eq_false_2; [reflexivity |].
    rewrite Hparent. now apply Hafter.
  - rewrite bool_decide_eq_false_2 by exact Hmore.
    destruct (lookup_lt_is_Some_2 children (S k) ltac:(lia)) as [c' Hc'].
    rewrite (lookup_app_l_Some _ _ _ _ Hc').
    assert (Hin' : c' ∈ children) by (apply list_elem_of_lookup; now exists (S k)).
    destruct (Hfamily c' Hin') as [_ Hparent'].
    rewrite bool_decide_eq_true_2; [reflexivity | congruence].
Qed.

(** The two children of [p1] in the ledger. *)
Lemma isLastChild_of_family_witness :
  isLastChild Samples.ledger 1 = false /\ isLastChild Samples.ledger 2 = true.
Proof.
  split.
  - apply (isLastChild_of_family [Samples.row "p1" None (-700)]
             [Samples.row "c1" (Some "p1") (-500); Samples.row "c2" (Some "p1") (-200)]
             [Samples.row "t1" None 1500; Samples.row "p2" None (-90);
              Samples.row "c3" (Some "p2") (-90)]
             (Some "p1") 0).
    + intros c Hin.
      repeat (apply elem_of_cons in Hin as [-> | Hin]; [now split |]).
      inversion Hin.
    + intros n [= <-]. discriminate.
    + cbn. lia.
  - apply (isLastChild_of_family [Samples.row "p1" None (-700)]
             [Samples.row "c1" (Some "p1") (-500); Samples.row "c2" (Some "p1") (-200)]
             [Samples.row "t1" None 1500; Samples.row "p2" None (-90);
              Samples.row "c3" (Some "p2") (-90)]
             (Some "p1") 1).
    + intros c Hin.
      repeat (apply elem_of_cons in Hin as [-> | Hin]; [now split |]).
      inversion Hin.
    + intros n [= <-]. discriminate.
    + cbn. lia.
Defined.

(** *** Field sets *)

(** X19.  The fields of a row are never none, and they are fields of the
    full list in the order of that list: the order of the columns. *)
Theorem getFields_in_order (showAccount showCategory : bool) (item : Transaction) :
  getFields showAccount showCategory item <> []
  /\ sublist (getFields showAccount showCategory item) allFields.
Proof.
  unfold getFields.
  destruct (is_child item), (isPreviewId (id item)), (isTemporaryId (id item)),
    showAccount, showCategory;
    (split;
     [ discriminate
     | cbv [allFields childFields List.filter drop orb andb negb String.eqb
            Ascii.eqb Bool.eqb];
       repeat first [apply sublist_nil | apply sublist_skip | apply sublist_cons] ]).
Qed.

(** X20.  [select] is a field of a row exactly when the row's id is not
    temporary, and then it is the first field. *)
Theorem getFields_select (showAccount showCategory : bool) (item : Transaction) :
  ("select" ∈ getFields showAccount showCategory item
   <-> isTemporaryId (id item) = false)
  /\ (isTemporaryId (id item) = false ->
      head (getFields showAccount showCategory item) = Some "select").
Proof.
  unfold getFields.
  destruct (is_child item), (isPreviewId (id item)), (isTemporaryId (id item)),
    showAccount, showCategory;
    (split; [split; [intros Hin | intros Heq]
            | intros Heq]);
    try reflexivity; try discriminate Heq;
    cbv [allFields childFields List.filter drop orb andb negb String.eqb
         Ascii.eqb Bool.eqb] in *;
    try (now left);
    exfalso;
    repeat (apply elem_of_cons in Hin as [Hin | Hin]; [discriminate Hin |]);
    inversion Hin.
Qed.

(** *** The draft buffer *)

(** X21.  [onDelete] throws exactly when the id is temporary and there is
    no buffer or an empty one; in every other case it returns. *)
Theorem onDelete_throws (deleteTransaction_data : list Transaction -> string -> list Transaction)
    (buffer : option (list Transaction)) (x : string) :
  (exists message, onDelete deleteTransaction_data buffer x = Throws message)
  <-> isTemporaryId x = true /\ (buffer = None \/ buffer = Some []).
Proof.
  unfold onDelete. destruct (isTemporaryId x).
  - destruct buffer as [[| first rest] |].
    + split; [intros _; split; [reflexivity | now right] | intros _; now eexists].
    + split.
      * intros [message Hthrow]. now destruct (String.eqb x (id first)).
      * intros [_ [Hnone | Hnil]]; discriminate.
    + split; [intros _; split; [reflexivity | now left] | intros _; now eexists].
  - split; [intros [message Hthrow]; discriminate | intros [Hfalse _]; discriminate].
Qed.

End TransactionTableMore.

(** ** The controller: the save queue, Enter, splitting and adding *)

Module TableControllerFacts.
Import SplitsExpanded TransactionTable TableHelpers TableController.

Section SaveQueue.
Context {K : Type}.

Lemma saveRun_snoc (q : SaveQueue K) (events : list (SaveEvent K)) (e : SaveEvent K) :
  saveRun q (events ++ [e])%list = saveStep (saveRun q events) e.
Proof. unfold saveRun. now rewrite foldl_app. Qed.

Lemma handed_snoc (events : list (SaveEvent K)) (e : SaveEvent K) :
  handed (events ++ [e])%list
  = (handed events
     ++ match e with after_save func => [func] | _ => [] end)%list.
Proof. unfold handed. rewrite omap_app. now destruct e. Qed.

(** What holds after any events: a continuation is stored only while a save
    is pending, and the continuations called and the one stored are, in
    order, among those handed over. *)
Lemma saveRun_queue (events : list (SaveEvent K)) :
  let q := saveRun idle events in
  (afterSaveFunc q <> None -> savePending q = true)
  /\ sublist (called q ++ option_list (afterSaveFunc q))%list (handed events).
Proof.
  induction events as [| e events IH] using rev_ind; cbn zeta.
  - cbn. split; [congruence | constructor].
  - rewrite saveRun_snoc, handed_snoc.
    cbn zeta in IH. destruct IH as [Hstored Hsub].
    destruct (saveRun idle events) as [pending stored done]. cbn in Hstored, Hsub.
    destruct e as [| func |]; cbn.
    + rewrite app_nil_r. split; [reflexivity | exact Hsub].
    + unfold afterSave. cbn. destruct pending; cbn.
      * split; [reflexivity |].
        apply sublist_app; [| reflexivity].
        etransitivity; [| exact Hsub]. now apply sublist_inserts_r.
      * destruct stored as [old |]; [now discriminate Hstored |].
        cbn in Hsub. rewrite !app_nil_r in *. split; [congruence |].
        now apply sublist_app.
    + rewrite app_nil_r. unfold dataChanged. cbn.
      destruct pending; cbn.
      * destruct stored as [func |]; cbn.
        -- rewrite app_nil_r. split; [congruence | exact Hsub].
        -- split; [congruence | exact Hsub].
      * destruct stored as [old |]; [now discriminate Hstored |].
        split; [congruence | exact Hsub].
Qed.

(** X22.  The continuations that were called are among the ones handed to
    [afterSave], in the order they were handed over, none called twice; and
    one is kept for later only while a save is pending. *)
Theorem afterSave_in_order (events : list (SaveEvent K)) :
  sublist (called (saveRun idle events)) (handed events)
  /\ (afterSaveFunc (saveRun idle events) <> None ->
      savePending (saveRun idle events) = true).
Proof.
  destruct (saveRun_queue events) as [Hstored Hsub]. split; [| exact Hstored].
  etransitivity; [| exact Hsub]. now apply sublist_inserts_r.
Qed.

Lemma saveRun_pending (q : SaveQueue K) (funcs : list K) :
  savePending q = true ->
  saveRun q (after_save <$> funcs)
  = {| savePending := true;
       afterSaveFunc := from_option Some (afterSaveFunc q) (last funcs);
       called := called q |}.
Proof.
  revert q. induction funcs as [| func funcs IH]; intros q Hpending.
  - cbn. destruct q. cbn in *. now subst.
  - cbn [fmap list_fmap]. unfold saveRun. cbn [foldl].
    fold (saveRun (saveStep q (after_save func)) (after_save <$> funcs)).
    cbn [saveStep]. unfold afterSave at 1. rewrite Hpending.
    rewrite IH by reflexivity. cbn. f_equal.
    destruct funcs as [| g funcs]; [reflexivity |].
    rewrite last_cons_cons.
    destruct (last (g :: funcs)) eqn:Hlast; [reflexivity |].
    apply last_None in Hlast. discriminate Hlast.
Qed.

(** X23.  Of the continuations handed over while a save is pending only the
    last one is called, once, when the data change; the save is over then
    and nothing is kept. *)
Theorem afterSave_last_wins (q : SaveQueue K) (funcs : list K) (func : K) :
  savePending q = true ->
  saveRun q ((after_save <$> funcs) ++ [after_save func; data_changed])%list
  = {| savePending := false; afterSaveFunc := None;
       called := (called q ++ [func])%list |}.
Proof.
  intros Hpending. unfold saveRun. rewrite foldl_app.
  fold (saveRun q (after_save <$> funcs)).
  rewrite (saveRun_pending q funcs Hpending). reflexivity.
Qed.

End SaveQueue.

(** Two Enter keys during one save: the second continuation runs. *)
Lemma afterSave_last_wins_witness :
  saveRun {| savePending := true; afterSaveFunc := None; called := ["earlier"] |}
    [after_save "first"; after_save "second"; data_changed]
  = {| savePending := false; afterSaveFunc := None;
       called := ["earlier"; "second"] |}.
Proof.
  apply (afterSave_last_wins
           {| savePending := true; afterSaveFunc := None; called := ["earlier"] |}
           ["first"] "second").
  reflexivity.
Defined.

(** *** Enter *)

(** X24.  Enter in the draft rows, without modifier: the continuation
    throws only on an empty buffer; it commits the draft only when the last
    row is being edited and the first row carries no error; it adds a split
    only when the last row is being edited and the first row carries an
    error, and then to the last row. *)
Theorem newEnterContinuation_cases (editingId : option string)
    (newTransactions : list Transaction) :
  ((exists message, newEnterContinuation editingId newTransactions = Throws message)
   <-> newTransactions = [])
  /\ (newEnterContinuation editingId newTransactions = Returns addTemporary_ ->
      exists first lastTransaction,
        head newTransactions = Some first
        /\ last newTransactions = Some lastTransaction
        /\ error first = None
        /\ editingId = Some (id lastTransaction))
  /\ (forall x, newEnterContinuation editingId newTransactions = Returns (addSplit x) ->
      exists first lastTransaction,
        head newTransactions = Some first
        /\ last newTransactions = Some lastTransaction
        /\ error first <> None
        /\ editingId = Some x /\ x = id lastTransaction).
Proof.
  unfold newEnterContinuation.
  destruct newTransactions as [| first rest].
  { cbn. split; [split; [reflexivity | intros _; now eexists] |].
    split; [discriminate | intros x; discriminate]. }
  destruct (last (first :: rest)) as [lastTransaction |] eqn:Hlast;
    [| apply last_None in Hlast; discriminate Hlast].
  destruct (bool_decide_reflect (error first <> None)) as [Herr | Herr];
    destruct (bool_decide_reflect (editingId = Some (id lastTransaction)))
      as [Hedit | Hedit];
    cbn [andb];
    repeat match goal with
           | |- context [if ?b then _ else _] => destruct b
           end;
    (split; [split; [intros [message Hthrow]; discriminate Hthrow
                    | discriminate] |]);
    (split; [intros Hret | intros x Hret]);
    try discriminate Hret.
  all: try (exists first, lastTransaction; repeat split; trivial;
            destruct (error first); [now destruct Herr | reflexivity]).
  all: injection Hret as <-; exists first, lastTransaction;
       repeat split; trivial.
Qed.

(** [findIndex] is the first position whose row passes. *)
Lemma findIndex_first {A} (p : A -> bool) (l : list A) (i : nat) (x : A) :
  l !! i = Some x -> p x = true ->
  (forall (j : nat) (y : A), (j < i)%nat -> l !! j = Some y -> p y = false) ->
  findIndex p l = Z.of_nat i.
Proof.
  intros Hi Hx Hfirst. unfold findIndex.
  destruct (TransactionTableFacts.findIndex_from_spec p l 0)
    as [[_ Hnone] | (k & y & -> & Hk & Hy & Hbefore)].
  - assert (Hin : x ∈ l) by (apply list_elem_of_lookup; now exists i).
    rewrite (Hnone x Hin) in Hx. discriminate Hx.
  - rewrite Z.add_0_l. f_equal.
    destruct (Nat.lt_trichotomy k i) as [Hlt | [Heq | Hgt]]; [| exact Heq |].
    + rewrite (Hfirst k y Hlt Hk) in Hy. discriminate Hy.
    + rewrite (Hbefore i x Hgt Hi) in Hx. discriminate Hx.
Qed.

(** X25.  Enter in the committed rows adds a split to the row being edited
    exactly when the first row of the table with the edited id is the last
    child of its family, its parent is in the row map with an error, and
    the focus is not on [select]; when the edited id is no row of the table
    nothing happens; and it never asks to add the draft. *)
Theorem enterContinuation_cases (id0 : option string) (focusedField : string)
    (transactions : list Transaction) (map : gmap string Transaction) :
  (forall x,
     enterContinuation id0 focusedField transactions map = addSplit x
     <-> id0 = Some x /\ focusedField <> "select"
         /\ exists (i : nat) (t p : Transaction) (pid : string),
              transactions !! i = Some t /\ id t = x
              /\ (forall (j : nat) (u : Transaction),
                    (j < i)%nat -> transactions !! j = Some u -> id u <> x)
              /\ isLastChild transactions (Z.of_nat i) = true
              /\ parent_id t = Some pid /\ map !! pid = Some p
              /\ error p <> None)
  /\ ((forall t, t ∈ transactions -> Some (id t) <> id0) ->
      enterContinuation id0 focusedField transactions map = nothing)
  /\ enterContinuation id0 focusedField transactions map <> addTemporary_.
Proof.
  split; [| split].
  - intros x. split.
    + (* a split was added: the conditions hold *)
      unfold enterContinuation, findIndex.
      destruct (TransactionTableFacts.findIndex_from_spec
                  (fun t => bool_decide (Some (id t) = id0)) transactions 0)
        as [[-> Hnone] | (i & t & -> & Hi & Ht & Hbefore)].
      { change (at_index transactions (-1)) with (@None Transaction).
        discriminate. }
      rewrite Z.add_0_l, TransactionTableMore.at_index_nat, Hi.
      apply bool_decide_eq_true in Ht.
      destruct (parent_id t) as [pid |] eqn:Hpid; [| discriminate].
      destruct (map !! pid) as [p |] eqn:Hp; [| discriminate].
      destruct id0 as [y |]; [| discriminate].
      injection Ht as Ht.
      destruct (isLastChild transactions (Z.of_nat i)) eqn:Hlast;
        [| discriminate].
      destruct (bool_decide_reflect (error p <> None)) as [Herr |];
        [| discriminate].
      destruct (String.eqb_spec focusedField "select") as [| Hfield];
        [discriminate |].
      cbn. intros [= <-]. split; [reflexivity |]. split; [exact Hfield |].
      exists i, t, p, pid. repeat split; trivial.
      intros j u Hj Hu Hid. specialize (Hbefore j u Hj Hu).
      apply bool_decide_eq_false in Hbefore. apply Hbefore. now rewrite Hid.
    + (* the conditions hold: a split is added *)
      intros (-> & Hfield & i & t & p & pid & Hi & Hid & Hfirst & Hlast
              & Hpid & Hp & Herr).
      unfold enterContinuation.
      rewrite (findIndex_first _ transactions i t Hi).
      * rewrite TransactionTableMore.at_index_nat, Hi, Hpid, Hp, Hlast.
        rewrite bool_decide_eq_true_2 by exact Herr.
        now destruct (String.eqb_spec focusedField "select").
      * apply bool_decide_eq_true. now rewrite Hid.
      * intros j u Hj Hu. apply bool_decide_eq_false.
        intros [= Heq]. exact (Hfirst j u Hj Hu Heq).
  - (* the id is not in the table *)
    intros Habsent. unfold enterContinuation, findIndex.
    destruct (TransactionTableFacts.findIndex_from_spec
                (fun t => bool_decide (Some (id t) = id0)) transactions 0)
      as [[-> Hnone] | (i & t & _ & Hi & Ht & _)].
    + reflexivity.
    + apply bool_decide_eq_true in Ht. destruct (Habsent t); [| exact Ht].
      apply list_elem_of_lookup. now exists i.
  - unfold enterContinuation.
    destruct (match at_index transactions _ with
              | Some t => _
              | None => None
              end) as [p |]; [| discriminate].
    destruct id0 as [x |]; [| discriminate].
    now destruct (_ && _ && _).
Qed.

(** Enter on [c2], the last child of [p1], whose parent carries an error;
    and on [c1], which is not the last child. *)
Example enterContinuation_ledger :
  let failing :=
    {| id := "p1"; date := None; amount := Some (-700)%Z; account := None;
       payee := None; notes := None; category := None; cleared := false;
       parent_id := None; is_parent := true; is_child := false;
       error := Some {| version := 1; difference := (-100) |};
       _inverse := false |} in
  enterContinuation (Some "c2") "debit" Samples.ledger {[ "p1" := failing ]}
  = addSplit "c2"
  /\ enterContinuation (Some "c1") "debit" Samples.ledger {[ "p1" := failing ]}
     = nothing
  /\ enterContinuation (Some "c2") "select" Samples.ledger {[ "p1" := failing ]}
     = nothing.
Proof. repeat split; vm_compute; reflexivity. Qed.

(** *** Splitting a committed transaction *)

(** X26.  Splitting a committed transaction that is a row of the table
    leaves its family open, in either mode: the transaction reads as
    expanded and every child of it passes the filter of a settled state.
    The cell to edit next is the debit of the transaction when it has no
    amount yet. *)
Theorem onSplit_committed_opens (onSplit_ : string -> string)
    (transactions : list Transaction) (focusedField : string)
    (state : State) (x : string) :
  (exists t, t ∈ transactions /\ id t = x) ->
  exists state1 target,
    onSplit_committed onSplit_ transactions focusedField state x
    = Returns (state1, target)
    /\ expanded state1 x = true
    /\ (forall child, parent_id child = Some x -> settledFilter state1 child = true)
    /\ (forall t, List.find (fun t => String.eqb (id t) x) transactions = Some t ->
          amount t = None -> target = (x, "debit")).
Proof.
  intros (t & Hin & Hid). unfold onSplit_committed.
  destruct (List.find (fun t => String.eqb (id t) x) transactions)
    as [trans |] eqn:Hfind.
  - apply List.find_some in Hfind as [_ Heq]. apply String.eqb_eq in Heq.
    rewrite Heq. cbn.
    assert (Hopen : expanded
              {| ids := match mode state with
                        | expand => set_add (ids state) x
                        | collapse => set_delete (ids state) x
                        end;
                 mode := mode state; transitionId := transitionId state |} x = true).
    { unfold expanded. cbn. destruct (mode state).
      - apply SplitsExpandedFacts.has_set_add.
      - now rewrite SplitsExpandedFacts.has_set_delete. }
    do 2 eexists. split; [reflexivity |]. split; [exact Hopen |]. split.
    + intros child Hparent. unfold settledFilter, truthy. rewrite Hparent.
      destruct (String.eqb x ""); [reflexivity | exact Hopen].
    + intros t' [= <-] Hamount. now rewrite Hamount.
  - exfalso.
    pose proof (List.find_none _ _ Hfind t (proj1 (list_elem_of_In _ _) Hin))
      as Hno.
    cbn in Hno. rewrite Hid, String.eqb_refl in Hno. discriminate Hno.
Qed.

(** A transaction that is no row of the table cannot be split. *)
Lemma onSplit_committed_absent (onSplit_ : string -> string)
    (transactions : list Transaction) (focusedField : string)
    (state : State) (x : string) :
  (forall t, t ∈ transactions -> id t <> x) ->
  exists message,
    onSplit_committed onSplit_ transactions focusedField state x = Throws message.
Proof.
  intros Habsent. unfold onSplit_committed.
  destruct (List.find (fun t => String.eqb (id t) x) transactions)
    as [trans |] eqn:Hfind; [| now eexists].
  apply List.find_some in Hfind as [Hin Heq]. apply String.eqb_eq in Heq.
  destruct (Habsent trans); [now apply list_elem_of_In | exact Heq].
Qed.

(** Splitting [t1] of the ledger while all families are closed. *)
Lemma onSplit_committed_opens_witness :
  exists state1 target,
    onSplit_committed (fun x => x +:+ "/1") Samples.ledger "category"
      (initial expand) "t1"
    = Returns (state1, target)
    /\ expanded state1 "t1" = true
    /\ (forall child, parent_id child = Some "t1" -> settledFilter state1 child = true)
    /\ (forall t, List.find (fun t => String.eqb (id t) "t1") Samples.ledger = Some t ->
          amount t = None -> target = ("t1", "debit")).
Proof.
  apply onSplit_committed_opens.
  exists (Samples.row "t1" None 1500). split; [| reflexivity].
  apply list_elem_of_lookup. exists 3%nat. reflexivity.
Defined.

(** *** Sorting *)

(** X27.  A second click on the column the table is sorted by restores the
    direction, and a click on another column gives that column's default
    direction. *)
Theorem selectAscDesc_clicks (field clicked ascDesc default1 default2 : string) :
  ascDesc = "asc" \/ ascDesc = "desc" ->
  selectAscDesc field (selectAscDesc field ascDesc field default1) field default2
  = ascDesc
  /\ (field <> clicked -> selectAscDesc field ascDesc clicked default1 = default1).
Proof.
  intros Hdir. unfold selectAscDesc. rewrite String.eqb_refl. split.
  - destruct Hdir as [-> | ->]; reflexivity.
  - intros Hne. now destruct (String.eqb_spec field clicked).
Qed.

(** Two clicks on the date column sorted downwards. *)
Lemma selectAscDesc_clicks_witness :
  selectAscDesc "date" (selectAscDesc "date" "desc" "date" "asc") "date" "desc"
  = "desc"
  /\ ("date" <> "payee" -> selectAscDesc "date" "desc" "payee" "asc" = "asc").
Proof.
  apply selectAscDesc_clicks. now right.
Defined.

(** *** Adding the draft *)

Section Drafts.
Context {L : LootCore}.

(** X28.  Adding the draft: without an account on its first row nothing is
    added, the buffer stays and the user is told that the account is
    required; with an account the whole buffer is handed to [onAdd] and the
    buffer becomes one fresh row that carries the date of the first row
    forward. *)
Theorem addTemporary_cases (currentAccountId currentCategoryId : option string)
    (first : Transaction) (rest : list Transaction) :
  (account first = None ->
   exists r,
     addTemporary currentAccountId currentCategoryId (first :: rest) = Returns r
     /\ newTransactions_after r = first :: rest
     /\ onAdd_called r = None
     /\ notification r = Some "Account is a required field"
     /\ edit r = ("temp", "account"))
  /\ (account first <> None ->
      exists r fresh,
        addTemporary currentAccountId currentCategoryId (first :: rest) = Returns r
        /\ onAdd_called r = Some (first :: rest)
        /\ notification r = None
        /\ newTransactions_after r = [fresh]
        /\ id fresh = "temp" /\ amount fresh = None
        /\ (forall d, date first = Some d -> d <> "" -> date fresh = Some d)
        /\ (date first = None -> date fresh = Some currentDay)).
Proof.
  unfold addTemporary. split.
  - intros ->. eexists. repeat split.
  - intros Haccount. destruct (account first) as [acct |]; [| contradiction].
    do 2 eexists. split; [reflexivity |]. cbn.
    repeat split.
    + intros d -> Hd. cbn. now destruct (String.eqb_spec d "").
    + now intros ->.
Qed.

(** X29.  The fresh draft is one row with a temporary id that is no preview
    id, with a date and without amount; it cannot be deleted; its first
    field is the date; and Enter on it, with nothing else in the buffer,
    asks to add it. *)
Theorem makeTemporaryTransactions_fresh
    (currentAccountId currentCategoryId lastDate : option string)
    (deleteTransaction_data : list Transaction -> string -> list Transaction)
    (showAccount showCategory : bool) :
  exists fresh,
    makeTemporaryTransactions currentAccountId currentCategoryId lastDate = [fresh]
    /\ isTemporaryId (id fresh) = true /\ isPreviewId (id fresh) = false
    /\ date fresh <> None /\ amount fresh = None
    /\ onDelete deleteTransaction_data (Some [fresh]) (id fresh)
       = Returns (Some [fresh])
    /\ head (getFields showAccount showCategory fresh) = Some "date"
    /\ newEnterContinuation (Some (id fresh)) [fresh] = Returns addTemporary_.
Proof.
  eexists. split; [reflexivity |]. cbn [id date amount].
  destruct showAccount, showCategory;
    repeat split; try discriminate; vm_compute; reflexivity.
Qed.

End Drafts.

End TableControllerFacts.
